(** * golucene storage core: bit utilities, IOContext, Lock, Directory, slices

    A shallow embedding of [core/util/bit.go] (package [util]: the byte
    population-count table, [pop_array], the zigzag codec) and of the
    [store] package that follows it in the same source file ([IOContext],
    [LockImpl.ObtainWithin], [DirectoryImpl], [simpleIndexInputSlicer],
    [SlicedIndexInput]).

    Conventions.
    - Go's [int64] is a [Z] in the range [-2^63, 2^63); every operation that
      can leave the range is followed by [wrap64].  [>>] on a signed value is
      the arithmetic shift [Z.shiftr]; [&], [|], [^] are [Z.land], [Z.lor],
      [Z.lxor], which agree with the two's-complement operations on in-range
      values and stay in range.
    - A Go pointer that may be [nil] is an [option]; an [error] is the text
      that its [Error()] method returns, and a [nil] error is [None].
    - A panic is an outcome of its own ([Panic msg]); it is never an error
      value.
    - Code that belongs to the repository but is not part of the file
      (the [BufferedIndexInput] template, [assert2], [BUFFER_SIZE], the
      [%v] renderings of values) is taken as a parameter or modelled under
      a comment that says so. *)

From Equations Require Import Equations.
From Stdlib Require Import ZArith List Lia String Bool.
From Stdlib Require Import DecimalString.
Import ListNotations.
Local Open Scope Z_scope.

(* ===================================================================== *)
(** * Machine integers *)
(* ===================================================================== *)

Definition MIN_INT64 : Z := - 2 ^ 63.
Definition MAX_INT64 : Z := 2 ^ 63 - 1.

(** [v] is a value of Go's [int64]. *)
Definition is_int64 (v : Z) : Prop := MIN_INT64 <= v <= MAX_INT64.

Definition is_int64b (v : Z) : bool := (MIN_INT64 <=? v) && (v <=? MAX_INT64).

(** Reduction of a mathematical integer to [int64] (two's complement). *)
Definition wrap64 (z : Z) : Z := (z + 2 ^ 63) mod 2 ^ 64 - 2 ^ 63.

(** The conversion [uint64(l)] of an [int64]. *)
Definition uint64 (l : Z) : Z := l mod 2 ^ 64.

(** The conversion [byte(v)]. *)
Definition byte (v : Z) : Z := v mod 2 ^ 8.

Definition add64 (a b : Z) : Z := wrap64 (a + b).
Definition neg64 (a : Z) : Z := wrap64 (- a).
Definition shl64 (a n : Z) : Z := wrap64 (Z.shiftl a n).

(* ===================================================================== *)
(** * Package util (util/BitUtil.java) *)
(* ===================================================================== *)

Module BitUtil.

(** table of bits/byte *)
Definition BYTE_COUNTS : list Z :=
  [ 0; 1; 1; 2; 1; 2; 2; 3; 1; 2; 2; 3; 2; 3; 3; 4;
    1; 2; 2; 3; 2; 3; 3; 4; 2; 3; 3; 4; 3; 4; 4; 5;
    1; 2; 2; 3; 2; 3; 3; 4; 2; 3; 3; 4; 3; 4; 4; 5;
    2; 3; 3; 4; 3; 4; 4; 5; 3; 4; 4; 5; 4; 5; 5; 6;
    1; 2; 2; 3; 2; 3; 3; 4; 2; 3; 3; 4; 3; 4; 4; 5;
    2; 3; 3; 4; 3; 4; 4; 5; 3; 4; 4; 5; 4; 5; 5; 6;
    2; 3; 3; 4; 3; 4; 4; 5; 3; 4; 4; 5; 4; 5; 5; 6;
    3; 4; 4; 5; 4; 5; 5; 6; 4; 5; 5; 6; 5; 6; 6; 7;
    1; 2; 2; 3; 2; 3; 3; 4; 2; 3; 3; 4; 3; 4; 4; 5;
    2; 3; 3; 4; 3; 4; 4; 5; 3; 4; 4; 5; 4; 5; 5; 6;
    2; 3; 3; 4; 3; 4; 4; 5; 3; 4; 4; 5; 4; 5; 5; 6;
    3; 4; 4; 5; 4; 5; 5; 6; 4; 5; 5; 6; 5; 6; 6; 7;
    2; 3; 3; 4; 3; 4; 4; 5; 3; 4; 4; 5; 4; 5; 5; 6;
    3; 4; 4; 5; 4; 5; 5; 6; 4; 5; 5; 6; 5; 6; 6; 7;
    3; 4; 4; 5; 4; 5; 5; 6; 4; 5; 5; 6; 5; 6; 6; 7;
    4; 5; 5; 6; 5; 6; 6; 7; 5; 6; 6; 7; 6; 7; 7; 8 ].

(** [BYTE_COUNTS[b&0xFF]].  The index is always below 256, the length of the
    table, so the default of [nth] is never returned. *)
Definition BitCount (b : Z) : Z :=
  nth (Z.to_nat (Z.land b 0xFF)) BYTE_COUNTS 0.

(** Bound on the iterations the inner loop of [pop_array] still has to run:
    the number of the highest set bit, plus one, for a positive word. *)
Definition bits_left (v : Z) : nat :=
  if v <=? 0 then O else S (Z.to_nat (Z.log2 v)).

(** The inner loop [for v > 0 { popCount += BitCount(byte(v & 0xff)); v >>= 8 }]
    of [pop_array], started with the running total [popCount]. *)
Equations? pop_word (v popCount : Z) : Z by wf (bits_left v) lt :=
  pop_word v popCount with Z_gt_dec v 0 => {
    | left _ := pop_word (Z.shiftr v 8)
                         (popCount + BitCount (byte (Z.land v 0xff)));
    | right _ := popCount }.
Proof.
  unfold bits_left.
  destruct (Z.leb_spec v 0); [lia|].
  destruct (Z.leb_spec (Z.shiftr v 8) 0); [lia|].
  rewrite Z.log2_shiftr by lia.
  assert (8 <= Z.log2 v).
  { destruct (Z.lt_ge_cases (Z.log2 v) 8) as [Hlt|]; [|lia].
    exfalso.
    assert (v < 2 ^ 8) by (apply Z.log2_lt_pow2; lia).
    rewrite Z.shiftr_div_pow2, Z.div_small in *; lia. }
  rewrite Z.max_r by lia. lia.
Qed.

(** Returns the number of set bits in a slice of int64.  [popCount] is a Go
    [int]; it is at most [64 * len(arr)] and cannot leave the range. *)
Definition pop_array (arr : list Z) : Z :=
  fold_left (fun popCount v => pop_word v popCount) arr 0.

Definition ZigZagEncodeLong (l : Z) : Z :=
  Z.lxor (Z.shiftr l 63) (shl64 l 1).

Definition ZigZagDecodeLong (l : Z) : Z :=
  Z.lxor (wrap64 (Z.shiftr (uint64 l) 1)) (neg64 (Z.land l 1)).

(** ** What the documentation of [pop_array] asks for *)

(** The eight bytes of a word, least significant first. *)
Definition word_bytes (w : Z) : list Z :=
  map (fun k => Z.land (Z.shiftr w (8 * k)) 0xff) [0; 1; 2; 3; 4; 5; 6; 7].

Definition sumZ (l : list Z) : Z := fold_right Z.add 0 l.

(** The [k] low bytes of a word, least significant first. *)
Definition low_bytes (k : nat) (w : Z) : list Z :=
  map (fun i => Z.land (Z.shiftr w (8 * Z.of_nat i)) 0xff) (seq 0 k).

(** What one word adds to the total in the code: its bytes are counted when
    it is positive, and nothing is counted otherwise. *)
Definition counted (w : Z) : Z :=
  if w >? 0 then sumZ (map BitCount (word_bytes w)) else 0.

(** Sum of [BitCount] over every byte of every word. *)
Definition pop_array_spec (arr : list Z) : Z :=
  sumZ (map (fun w => sumZ (map BitCount (word_bytes w))) arr).

(** Number of set bits among the low [n] bits of [w]. *)
Fixpoint set_bits (n : nat) (w : Z) : Z :=
  match n with
  | O => 0
  | S k => (if Z.testbit w (Z.of_nat k) then 1 else 0) + set_bits k w
  end.

(** ** The table of bit lists *)

(** The General Idea: instead of having an array per byte that has the
    offsets of the next set bit, that array could be packed inside a 32 bit
    integer (8 4 bit numbers). *)
Definition BIT_LISTS : list Z :=
  [ 0x0; 0x1; 0x2; 0x21; 0x3; 0x31; 0x32; 0x321;
    0x4; 0x41; 0x42; 0x421; 0x43; 0x431; 0x432; 0x4321;
    0x5; 0x51; 0x52; 0x521; 0x53; 0x531; 0x532; 0x5321;
    0x54; 0x541; 0x542; 0x5421; 0x543; 0x5431; 0x5432; 0x54321;
    0x6; 0x61; 0x62; 0x621; 0x63; 0x631; 0x632; 0x6321;
    0x64; 0x641; 0x642; 0x6421; 0x643; 0x6431; 0x6432; 0x64321;
    0x65; 0x651; 0x652; 0x6521; 0x653; 0x6531; 0x6532; 0x65321;
    0x654; 0x6541; 0x6542; 0x65421; 0x6543; 0x65431; 0x65432; 0x654321;
    0x7; 0x71; 0x72; 0x721; 0x73; 0x731; 0x732; 0x7321;
    0x74; 0x741; 0x742; 0x7421; 0x743; 0x7431; 0x7432; 0x74321;
    0x75; 0x751; 0x752; 0x7521; 0x753; 0x7531; 0x7532; 0x75321;
    0x754; 0x7541; 0x7542; 0x75421; 0x7543; 0x75431; 0x75432; 0x754321;
    0x76; 0x761; 0x762; 0x7621; 0x763; 0x7631; 0x7632; 0x76321;
    0x764; 0x7641; 0x7642; 0x76421; 0x7643; 0x76431; 0x76432; 0x764321;
    0x765; 0x7651; 0x7652; 0x76521; 0x7653; 0x76531; 0x76532; 0x765321;
    0x7654; 0x76541; 0x76542; 0x765421; 0x76543; 0x765431; 0x765432; 0x7654321;
    0x8; 0x81; 0x82; 0x821; 0x83; 0x831; 0x832; 0x8321;
    0x84; 0x841; 0x842; 0x8421; 0x843; 0x8431; 0x8432; 0x84321;
    0x85; 0x851; 0x852; 0x8521; 0x853; 0x8531; 0x8532; 0x85321;
    0x854; 0x8541; 0x8542; 0x85421; 0x8543; 0x85431; 0x85432; 0x854321;
    0x86; 0x861; 0x862; 0x8621; 0x863; 0x8631; 0x8632; 0x86321;
    0x864; 0x8641; 0x8642; 0x86421; 0x8643; 0x86431; 0x86432; 0x864321;
    0x865; 0x8651; 0x8652; 0x86521; 0x8653; 0x86531; 0x86532; 0x865321;
    0x8654; 0x86541; 0x86542; 0x865421; 0x86543; 0x865431; 0x865432; 0x8654321;
    0x87; 0x871; 0x872; 0x8721; 0x873; 0x8731; 0x8732; 0x87321;
    0x874; 0x8741; 0x8742; 0x87421; 0x8743; 0x87431; 0x87432; 0x874321;
    0x875; 0x8751; 0x8752; 0x87521; 0x8753; 0x87531; 0x87532; 0x875321;
    0x8754; 0x87541; 0x87542; 0x875421; 0x87543; 0x875431; 0x875432; 0x8754321;
    0x876; 0x8761; 0x8762; 0x87621; 0x8763; 0x87631; 0x87632; 0x876321;
    0x8764; 0x87641; 0x87642; 0x876421; 0x87643; 0x876431; 0x876432; 0x8764321;
    0x8765; 0x87651; 0x87652; 0x876521; 0x87653; 0x876531; 0x876532; 0x8765321;
    0x87654; 0x876541; 0x876542; 0x8765421; 0x876543; 0x8765431; 0x8765432; 0x87654321 ].

(** The python code that generated bitlist, as the comment above the table
    gives it: [shift] runs from 8 down to 1 while bit 7 of [val] is tested
    and [val] is shifted to the left. *)
Definition bits2int (val : Z) : Z :=
  fst (fold_left
         (fun (st : Z * Z) (shift : Z) =>
            let '(arr, val) := st in
            ((if Z.land val 0x80 =? 0 then arr
              else Z.lor (Z.shiftl arr 4) shift),
             Z.shiftl val 1))
         [8; 7; 6; 5; 4; 3; 2; 1] (0, val)).

(** The 4 bit numbers packed in [x], lowest first, up to the first that is
    zero; [n] bounds how many are read. *)
Fixpoint nibbles (n : nat) (x : Z) : list Z :=
  match n with
  | O => []
  | S k => if Z.land x 0xf =? 0 then []
           else Z.land x 0xf :: nibbles k (Z.shiftr x 4)
  end.

(** The numbers, counted from 1, of the bits that are set in a byte, in
    ascending order. *)
Definition set_bit_numbers (b : Z) : list Z :=
  filter (fun k => Z.testbit b (k - 1)) [1; 2; 3; 4; 5; 6; 7; 8].

End BitUtil.

(* ===================================================================== *)
(** * Package store *)
(* ===================================================================== *)

Module Store.

Local Open Scope string_scope.
Local Open Scope list_scope.
Local Open Scope Z_scope.

(** An [error] value is kept as the text its [Error()] method returns; the
    [nil] error is [None]. *)
Definition error : Type := string.

(** How a call ends: it returns a value, or it panics. *)
Inductive outcome (A : Type) : Type :=
| Return (a : A)
| Panic (msg : string).
Arguments Return {A} a.
Arguments Panic {A} msg.

Definition panics {A} (o : outcome A) : bool :=
  match o with Return _ => false | Panic _ => true end.

Class Monad (m : Type -> Type) : Type := {
  ret : forall {A}, A -> m A;
  bind : forall {A B}, m A -> (A -> m B) -> m B }.

Notation "x <- c1 ;; c2" := (bind c1 (fun x => c2))
  (at level 61, c1 at next level, right associativity).
Notation "c1 ;; c2" := (bind c1 (fun _ => c2))
  (at level 61, right associativity).

#[export] Instance outcome_Monad : Monad outcome := {
  ret := @Return;
  bind := fun A B o k => match o with Return a => k a | Panic msg => Panic msg end }.

(** Code with effects on a state [S]: a panic keeps the state it was raised
    in. *)
Definition M (S A : Type) : Type := S -> outcome A * S.

#[export] Instance M_Monad (S : Type) : Monad (M S) := {
  ret := fun A a s => (Return a, s);
  bind := fun A B c k s =>
    match c s with
    | (Return a, s') => k a s'
    | (Panic msg, s') => (Panic msg, s')
    end }.

Definition panic {S A} (msg : string) : M S A := fun s => (Panic msg, s).

(** A call of code without effects. *)
Definition lift {S A} (o : outcome A) : M S A := fun s => (o, s).

Definition assert (ok : bool) : outcome unit :=
  if ok then Return tt else Panic "assert fail".

(** Modelled from the spec: [assert2(ok, msg)] is called by this file and
    declared in another file of package [store].  A violated precondition
    "fails immediately, synchronously, at the call that violates" it; like
    its sibling [assert] it panics, with the message it is given. *)
Definition assert2 (ok : bool) (msg : string) : outcome unit :=
  if ok then Return tt else Panic msg.

(** The [%v] rendering of an integer. *)
Definition show_int (z : Z) : string := NilZero.string_of_int (Z.to_int z).

(** ** store/IOContext.java *)

Definition IOContextType : Type := Z.

Definition IO_CONTEXT_TYPE_MERGE : IOContextType := 1.
Definition IO_CONTEXT_TYPE_READ : IOContextType := 2.
Definition IO_CONTEXT_TYPE_FLUSH : IOContextType := 3.
Definition IO_CONTEXT_TYPE_DEFAULT : IOContextType := 4.

Record FlushInfo : Type := {
  NumDocs : Z;
  EstimatedSegmentSize : Z }.

Record MergeInfo : Type := {
  TotalDocCount : Z;
  EstimatedMergeBytes : Z;
  IsExternal : bool;
  MergeMaxNumSegments : Z }.

(** The fields [MergeInfo] and [FlushInfo] are pointers; they are named
    [mergeInfo] and [flushInfo] here, the struct types keeping the names. *)
Record IOContext : Type := {
  context : IOContextType;
  mergeInfo : option MergeInfo;
  flushInfo : option FlushInfo;
  readOnce : bool }.

Definition is_nil {A} (p : option A) : bool :=
  match p with Some _ => false | None => true end.

Definition NewIOContextForFlush (flushInfo : option FlushInfo) : outcome IOContext :=
  assert (negb (is_nil flushInfo)) ;;
  ret {| context := IO_CONTEXT_TYPE_FLUSH;
         readOnce := false;
         flushInfo := flushInfo;
         mergeInfo := None |}.

Definition NewIOContextFromType (context : IOContextType) : outcome IOContext :=
  assert2 (negb (context =? IO_CONTEXT_TYPE_MERGE))
          "Use NewIOContextForMerge() to create a MERGE IOContext" ;;
  assert2 (negb (context =? IO_CONTEXT_TYPE_FLUSH))
          "Use NewIOContextForFlush() to create a FLUSH IOContext" ;;
  ret {| context := context;
         readOnce := false;
         mergeInfo := None;
         flushInfo := None |}.

Definition NewIOContextBool (readOnce : bool) : IOContext :=
  {| context := IO_CONTEXT_TYPE_READ;
     readOnce := readOnce;
     mergeInfo := None;
     flushInfo := None |}.

Definition NewIOContextForMerge (mergeInfo : option MergeInfo) : outcome IOContext :=
  assert2 (negb (is_nil mergeInfo)) "MergeInfo must not be nil if context is MERGE" ;;
  ret {| context := IO_CONTEXT_TYPE_MERGE;
         mergeInfo := mergeInfo;
         readOnce := false;
         flushInfo := None |}.

Definition IO_CONTEXT_DEFAULT : outcome IOContext :=
  NewIOContextFromType IO_CONTEXT_TYPE_DEFAULT.
Definition IO_CONTEXT_READONCE : IOContext := NewIOContextBool true.
Definition IO_CONTEXT_READ : IOContext := NewIOContextBool false.

(** The pairing of kind and info: [MergeInfo] is there exactly for the kind
    MERGE, and [FlushInfo] exactly for the kind FLUSH. *)
Definition well_paired (ctx : IOContext) : Prop :=
  (mergeInfo ctx <> None <-> context ctx = IO_CONTEXT_TYPE_MERGE) /\
  (flushInfo ctx <> None <-> context ctx = IO_CONTEXT_TYPE_FLUSH).

(** A context that one of the four constructors returned. *)
Definition constructed (ctx : IOContext) : Prop :=
  (exists flushInfo, NewIOContextForFlush flushInfo = Return ctx) \/
  (exists mergeInfo, NewIOContextForMerge mergeInfo = Return ctx) \/
  (exists kind, NewIOContextFromType kind = Return ctx) \/
  (exists readOnce, NewIOContextBool readOnce = ctx).

(** ** store/Lock.java *)

(** How long obtain() waits, in milliseconds, in between attempts to acquire
    the lock. *)
Definition LOCK_POOL_INTERVAL : Z := 1000.

(** Pass this value to obtain() to try forever to obtain the lock. *)
Definition LOCK_OBTAIN_WAIT_FOREVER : Z := -1.

(** What a run of [ObtainWithin] does to the outside: the calls of
    [lock.self.Obtain()] with what they returned, and the calls of
    [time.Sleep] with their length in milliseconds. *)
Inductive event : Type :=
| ObtainCalled (ok : bool) (err : option error)
| Slept (ms : Z).

Definition is_ObtainCalled (e : event) : bool :=
  match e with ObtainCalled _ _ => true | Slept _ => false end.

(** The number of calls of [Obtain] in a piece of trace. *)
Definition attempts (evs : list event) : Z :=
  Z.of_nat (List.length (filter is_ObtainCalled evs)).

(** The time spent in [time.Sleep] in a piece of trace, in milliseconds. *)
Fixpoint total_sleep (evs : list event) : Z :=
  match evs with
  | [] => 0
  | ObtainCalled _ _ :: evs => total_sleep evs
  | Slept ms :: evs => ms + total_sleep evs
  end.

(** The piece of trace that polling leaves: sleeps of the poll interval,
    each followed by one attempt. *)
Fixpoint polled (evs : list event) : bool :=
  match evs with
  | [] => true
  | Slept ms :: ObtainCalled _ _ :: evs => (ms =? LOCK_POOL_INTERVAL) && polled evs
  | _ => false
  end.

(** One attempt, then the polls. *)
Definition attempt_then_polled (evs : list event) : bool :=
  match evs with
  | ObtainCalled _ _ :: evs => polled evs
  | _ => false
  end.

Section Lock.

(** The state of the concrete lock that [self] points to. *)
Context {Backend : Type}.

Record LockImpl : Type := {
  self : Backend;
  (** If a lock obtain called, this failureReason may be set with the
      "root cause" error as to why the lock was not obtained *)
  failureReason : option error }.

(** The interface [Lock], as far as [LockImpl] calls it.  The concrete lock
    embeds the [LockImpl], so its methods see and may set [failureReason].
    A call of [Obtain] is taken to return. *)
Class Lock : Type := {
  Obtain : LockImpl -> (bool * option error) * LockImpl;
  Release : LockImpl -> option error * LockImpl;
  IsLocked : LockImpl -> bool }.

Definition NewLockImpl (self : Backend) : LockImpl :=
  {| self := self; failureReason := None |}.

Context {lock_methods : Lock}.

(** The [%v] rendering of the [*LockImpl]. *)
Context (show_lock : LockImpl -> string).

Record Run : Type := {
  lock : LockImpl;
  trace : list event }.

Definition call_Obtain (r : Run) : (bool * option error) * Run :=
  let '(res, l) := Obtain (lock r) in
  (res, {| lock := l; trace := trace r ++ [ObtainCalled (fst res) (snd res)] |}).

Definition time_Sleep (ms : Z) (r : Run) : Run :=
  {| lock := lock r; trace := trace r ++ [Slept ms] |}.

Definition reset_failureReason (r : Run) : Run :=
  {| lock := {| self := self (lock r); failureReason := None |};
     trace := trace r |}.

(** The error made when the time is out. *)
Definition timeout_error (l : LockImpl) : error :=
  let reason := ("Lock obtain time out: " ++ show_lock l)%string in
  match failureReason l with
  | Some fr => (reason ++ ": " ++ fr)%string
  | None => reason
  end.

(** The message of the assertion on the timeout. *)
Definition bad_timeout (lockWaitTimeout : Z) : string :=
  ("lockWaitTimeout should be LOCK_OBTAIN_WAIT_FOREVER or a non-negative number (got "
     ++ show_int lockWaitTimeout ++ ")")%string.

(** The loop [for sleepCount := int64(0); !locked; locked, err = lock.self.Obtain()]
    of [ObtainWithin], entered at its condition.  Every iteration that
    sleeps takes one unit of [fuel]; [None] says that the fuel ran out. *)
Fixpoint ObtainWithin_loop (fuel : nat) (lockWaitTimeout maxSleepCount sleepCount : Z)
    (locked : bool) (err : option error) (r : Run)
    : option (outcome (bool * option error) * Run) :=
  if negb locked then
    if negb (lockWaitTimeout =? LOCK_OBTAIN_WAIT_FOREVER) && (sleepCount >=? maxSleepCount)
    then Some (Return (locked, Some (timeout_error (lock r))), r)
    else
      match fuel with
      | O => None
      | S fuel' =>
          let sleepCount := add64 sleepCount 1 in
          let r := time_Sleep LOCK_POOL_INTERVAL r in
          let '((locked, err), r) := call_Obtain r in
          ObtainWithin_loop fuel' lockWaitTimeout maxSleepCount sleepCount locked err r
      end
  else Some (Return (locked, err), r).

Definition ObtainWithin (fuel : nat) (lockWaitTimeout : Z) (r : Run)
    : option (outcome (bool * option error) * Run) :=
  let r := reset_failureReason r in
  let '((locked, err), r) := call_Obtain r in
  match err with
  | Some _ => Some (Return (locked, err), r)
  | None =>
      match assert2 ((lockWaitTimeout >=? 0) || (lockWaitTimeout =? LOCK_OBTAIN_WAIT_FOREVER))
              (bad_timeout lockWaitTimeout) with
      | Panic msg => Some (Panic msg, r)
      | Return _ =>
          let maxSleepCount := Z.quot lockWaitTimeout LOCK_POOL_INTERVAL in
          ObtainWithin_loop fuel lockWaitTimeout maxSleepCount 0 locked err r
      end
  end.

(** One turn of the loop seen from outside: sleep, then try again. *)
Definition poll (r : Run) : (bool * option error) * Run :=
  call_Obtain (time_Sleep LOCK_POOL_INTERVAL r).

(** The run after [n] polls. *)
Fixpoint polls (n : nat) (r : Run) : Run :=
  match n with
  | O => r
  | S k => polls k (snd (poll r))
  end.

(** None of the next [n] polls obtains the lock. *)
Fixpoint never_locked (n : nat) (r : Run) : bool :=
  match n with
  | O => true
  | S k => negb (fst (fst (poll r))) && never_locked k (snd (poll r))
  end.

End Lock.

(** Utility to execute code with exclusive access. *)
Definition WithLock {Backend A : Type} (lock : LockImpl (Backend := Backend))
    (lockWaitTimeout : Z) (body : unit -> A) : outcome A :=
  Panic "not implemeted yet".

(** ** LockFactoryImpl and FSLockFactory *)

Record LockFactoryImpl : Type := {
  lockPrefix : string }.

Definition LockFactoryImpl_SetLockPrefix (f : LockFactoryImpl) (prefix : string)
    : LockFactoryImpl :=
  {| lockPrefix := prefix |}.

Definition LockFactoryImpl_LockPrefix (f : LockFactoryImpl) : string :=
  lockPrefix f.

(** [impl] is the embedded [*LockFactoryImpl]; the factory is its only
    owner. *)
Record FSLockFactory : Type := {
  impl : LockFactoryImpl;
  lockDir : string (* can not be set twice *) }.

Definition newFSLockFactory : FSLockFactory :=
  {| impl := {| lockPrefix := "" |}; lockDir := "" |}.

(** The factory is behind a pointer; the updated factory is returned. *)
Definition setLockDir (f : FSLockFactory) (lockDir' : string) : outcome FSLockFactory :=
  if negb (String.eqb (lockDir f) "") then
    Panic "You can set the lock directory for this factory only once."
  else Return {| impl := impl f; lockDir := lockDir' |}.

Definition getLockDir (f : FSLockFactory) : string := lockDir f.

Definition FSLockFactory_Clear (f : FSLockFactory) (name : string) : outcome (option error) :=
  Panic "invalid".

Definition FSLockFactory_Make {LockRef : Type} (f : FSLockFactory) (name : string)
    : outcome LockRef :=
  Panic "invalid".

Definition FSLockFactory_String (f : FSLockFactory) : string :=
  ("FSLockFactory@" ++ lockDir f)%string.

Arguments LockImpl Backend : clear implicits.
Arguments Lock Backend : clear implicits.
Arguments Run Backend : clear implicits.

(** ** Directory *)

Section Directory.

(** Everything outside the [DirectoryImpl] that its collaborators work on:
    the files, the open readers, the state of the lock factory. *)
Context {Ext : Type}.

(** An [IndexInput] interface value: a reference to a reader whose state is
    part of [Ext].  Two equal references are the same reader. *)
Context {IndexInput : Type}.

(** A [Lock] interface value, as [LockFactory.Make] returns it. *)
Context {LockRef : Type}.

(** The state the methods of this part run in: the output of package [log]
    and the collaborators' state. *)
Record World : Type := {
  stdlog : list string;
  ext : Ext }.

Definition log_Print (line : string) : M World unit :=
  fun w => (Return tt, {| stdlog := stdlog w ++ [line]; ext := ext w |}).

Record LockFactory : Type := {
  Make : string -> M World LockRef;
  Clear : string -> M World (option error);
  SetLockPrefix : string -> M World unit;
  LockPrefix : M World string;
  (** the [%v] rendering of the factory *)
  show_LockFactory : World -> string }.

Record directoryService : Type := {
  OpenInput : string -> IOContext -> M World (IndexInput * option error) }.

Record DirectoryImpl : Type := {
  service : directoryService;
  IsOpen : bool;
  lockFactory : option LockFactory }.

Definition NewDirectoryImpl (self : directoryService) : DirectoryImpl :=
  {| service := self; IsOpen := true; lockFactory := None |}.

(** The panic of the Go runtime for a method call on a nil interface. *)
Definition nil_dereference : string :=
  "runtime error: invalid memory address or nil pointer dereference".

Definition MakeLock (d : DirectoryImpl) (name : string) : M World LockRef :=
  match lockFactory d with
  | Some f => Make f name
  | None => panic nil_dereference
  end.

Definition ClearLock (d : DirectoryImpl) (name : string) : M World (option error) :=
  match lockFactory d with
  | Some f => Clear f name
  | None => ret None
  end.

Definition DirectoryImpl_String (d : DirectoryImpl) (w : World) : string :=
  ("Directory lockFactory=" ++
   match lockFactory d with
   | Some f => show_LockFactory f w
   | None => "<nil>"
   end)%string.

(** Return a string identifier that uniquely differentiates this Directory
    instance from other Directory instances. *)
Definition LockID (d : DirectoryImpl) : M World string :=
  fun w => (Return (DirectoryImpl_String d w), w).

(** The directory is behind a pointer; the updated directory is returned. *)
Definition SetLockFactory (d : DirectoryImpl) (lockFactory : option LockFactory)
    : M World DirectoryImpl :=
  lift (assert (negb (is_nil lockFactory))) ;;
  LockID d ;;
  let d := {| service := service d; IsOpen := IsOpen d; lockFactory := lockFactory |} in
  id <- LockID d ;;
  match lockFactory with
  | Some f => SetLockPrefix f id
  | None => panic nil_dereference
  end ;;
  ret d.

Definition EnsureOpen (d : DirectoryImpl) : M World unit :=
  if negb (IsOpen d) then
    log_Print "This Directory is closed." ;;
    panic "this Directory is closed"
  else ret tt.

(** The directory with its open flag set to [open]. *)
Definition with_IsOpen (open : bool) (d : DirectoryImpl) : DirectoryImpl :=
  {| service := service d; IsOpen := open; lockFactory := lockFactory d |}.

(** The world after the line that [EnsureOpen] logs before it panics. *)
Definition closed_log (w : World) : World :=
  {| stdlog := stdlog w ++ ["This Directory is closed."]; ext := ext w |}.

(** The only [IndexInputSlicer] of the file; [slicer_base] is its field
    [base]. *)
Record simpleIndexInputSlicer : Type := {
  slicer_base : IndexInput }.

(** The results are [(is IndexInputSlicer, err error)], a nil slicer being
    [None]. *)
Definition CreateSlicer (d : DirectoryImpl) (name : string) (context : IOContext)
    : M World (option simpleIndexInputSlicer * option error) :=
  panic (A := unit) "Should be overrided, I guess" ;;
  EnsureOpen d ;;
  r <- OpenInput (service d) name context ;;
  match snd r with
  | Some err => ret (None, Some err)
  | None => ret (Some {| slicer_base := fst r |}, None)
  end.

(** ** SlicedIndexInput *)

(** The interface [IndexInput], as far as this file calls it on a base
    reader; what [Seek] returns is dropped by its caller. *)
Class IndexInputMethods : Type := {
  Seek : IndexInput -> Z -> M World unit;
  ReadBytesBuffered : IndexInput -> list Z -> bool -> M World (list Z * option error);
  IndexInput_Close : IndexInput -> M World (option error);
  IndexInput_Clone : IndexInput -> M World IndexInput;
  show_IndexInput : IndexInput -> World -> string }.

(** The template [BufferedIndexInput] is declared in another file of the
    package; the file uses its constructor, its cursor, its [Clone] and the
    default [BUFFER_SIZE]. *)
Class BufferedIndexInputTemplate : Type := {
  BufferedIndexInput : Type;
  BUFFER_SIZE : Z;
  newBufferedIndexInputBySize : string -> Z -> BufferedIndexInput;
  FilePointer : BufferedIndexInput -> Z;
  BufferedIndexInput_Clone : BufferedIndexInput -> BufferedIndexInput;
  show_BufferedIndexInput : BufferedIndexInput -> string }.

Context {base_methods : IndexInputMethods}.
Context {template : BufferedIndexInputTemplate}.

(** [super] is the embedded [*BufferedIndexInput]; its two hooks
    ([SeekReader], [LengthCloser]) are the methods below. *)
Record SlicedIndexInput : Type := {
  super : BufferedIndexInput;
  base : IndexInput;
  fileOffset : Z;
  length : Z }.

Definition show_SlicedIndexInput (in_ : SlicedIndexInput) : string :=
  show_BufferedIndexInput (super in_).

Definition newSlicedIndexInputBySize (desc : string) (base : IndexInput)
    (fileOffset length bufferSize : Z) : M World SlicedIndexInput :=
  fun w =>
    let super := newBufferedIndexInputBySize
                   ("SlicedIndexInput(" ++ desc ++ " in " ++ show_IndexInput base w
                      ++ " slice=" ++ show_int fileOffset ++ ":"
                      ++ show_int (add64 fileOffset length) ++ ")")%string
                   bufferSize in
    (Return {| super := super; base := base; fileOffset := fileOffset; length := length |}, w).

Definition newSlicedIndexInput (desc : string) (base : IndexInput) (fileOffset length : Z)
    : M World SlicedIndexInput :=
  newSlicedIndexInputBySize desc base fileOffset length BUFFER_SIZE.

Definition openSlice (is_ : simpleIndexInputSlicer) (desc : string) (offset length : Z)
    : M World SlicedIndexInput :=
  fun w =>
    newSlicedIndexInput
      ("SlicedIndexInput(" ++ desc ++ " in " ++ show_IndexInput (slicer_base is_) w ++ ")")%string
      (slicer_base is_) offset length w.

Definition simpleIndexInputSlicer_Close (is_ : simpleIndexInputSlicer) : M World (option error) :=
  IndexInput_Close (slicer_base is_).

Definition openFullSlice (is_ : simpleIndexInputSlicer) : IndexInput :=
  slicer_base is_.

(** [buf] is filled in place: the result carries its new content beside the
    error. *)
Definition readInternal (in_ : SlicedIndexInput) (buf : list Z)
    : M World (list Z * option error) :=
  let start := FilePointer (super in_) in
  if add64 start (Z.of_nat (List.length buf)) >? length in_ then
    ret (buf, Some ("read past EOF: " ++ show_SlicedIndexInput in_)%string)
  else
    Seek (base in_) (add64 (fileOffset in_) start) ;;
    ReadBytesBuffered (base in_) buf false.

Definition seekInternal (in_ : SlicedIndexInput) (pos : Z) : M World (option error) :=
  ret None. (* nothing *)

Definition SlicedIndexInput_Close (in_ : SlicedIndexInput) : M World (option error) :=
  IndexInput_Close (base in_).

Definition Length (in_ : SlicedIndexInput) : Z := length in_.

(** [defer]: [deferred] runs when [body] is left, by a return or by a panic;
    it is given the result, or nothing when [body] panicked. *)
Definition deferring {A} (deferred : option A -> M World unit) (body : M World A)
    : M World A :=
  fun w =>
    match body w with
    | (Return a, w') =>
        match deferred (Some a) w' with
        | (Return _, w'') => (Return a, w'')
        | (Panic msg, w'') => (Panic msg, w'')
        end
    | (Panic msg, w') =>
        match deferred None w' with
        | (Return _, w'') => (Panic msg, w'')
        | (Panic msg', w'') => (Panic msg', w'')
        end
    end.

(** The result [ans] is of the interface type [IndexInput]; while the body
    has not returned it is nil, which [%v] renders as [<nil>]. *)
Definition Clone (in_ : SlicedIndexInput) : M World SlicedIndexInput :=
  log_Print ("DEGBU before clone: " ++ show_SlicedIndexInput in_)%string ;;
  deferring
    (fun ans =>
       log_Print ("DEBUG after clone: " ++
                  match ans with
                  | Some ans => show_SlicedIndexInput ans
                  | None => "<nil>"
                  end)%string)
    (let super' := BufferedIndexInput_Clone (super in_) in
     base' <- IndexInput_Clone (base in_) ;;
     ret {| super := super';
            base := base';
            fileOffset := fileOffset in_;
            length := length in_ |}).

(** The world after [Clone] has written its first line. *)
Definition before_clone (in_ : SlicedIndexInput) (w : World) : World :=
  {| stdlog := stdlog w ++ [("DEGBU before clone: " ++ show_SlicedIndexInput in_)%string];
     ext := ext w |}.

End Directory.

(** [*FSLockFactory] as a [LockFactory]: the factory is the state behind the
    reference. *)
Definition FSLockFactory_LockFactory {LockRef : Type}
    : LockFactory (Ext := FSLockFactory) (LockRef := LockRef) := {|
  Make := fun name w => (FSLockFactory_Make (ext w) name, w);
  Clear := fun name w => (FSLockFactory_Clear (ext w) name, w);
  SetLockPrefix := fun prefix w =>
    (Return tt,
     {| stdlog := stdlog w;
        ext := {| impl := LockFactoryImpl_SetLockPrefix (impl (ext w)) prefix;
                  lockDir := lockDir (ext w) |} |});
  LockPrefix := fun w => (Return (LockFactoryImpl_LockPrefix (impl (ext w))), w);
  show_LockFactory := fun w => FSLockFactory_String (ext w) |}.

Arguments World Ext : clear implicits.
Arguments LockFactory Ext LockRef : clear implicits.
Arguments directoryService Ext IndexInput : clear implicits.
Arguments DirectoryImpl Ext IndexInput LockRef : clear implicits.
Arguments simpleIndexInputSlicer IndexInput : clear implicits.
Arguments IndexInputMethods Ext IndexInput : clear implicits.
Arguments SlicedIndexInput IndexInput {template}.

(** A lock that never frees and reports an I/O error on every attempt. *)
Definition broken_lock : Lock unit := {|
  Obtain := fun l => ((false, Some "lock file unreadable"), l);
  Release := fun l => (None, l);
  IsLocked := fun _ => false |}.

(** A lock held by someone else: every attempt returns [(false, nil)] and
    records why. *)
Definition busy_lock : Lock unit := {|
  Obtain := fun l => ((false, None),
                      {| self := self l; failureReason := Some "held by another process" |});
  Release := fun l => (None, l);
  IsLocked := fun _ => true |}.

(** A lock that counts the attempts in its own state, records the number of
    the attempt as the failure reason, and is free from the attempt
    [free_at] on (never, when [free_at] is 0). *)
Definition counting_lock (free_at : Z) : Lock Z := {|
  Obtain := fun l =>
    let k := self l + 1 in
    if (0 <? free_at) && (free_at <=? k)
    then ((true, None), {| self := k; failureReason := failureReason l |})
    else ((false, None),
          {| self := k; failureReason := Some ("attempt " ++ show_int k)%string |});
  Release := fun l => (None, l);
  IsLocked := fun _ => true |}.

(** A lock that is held by someone else at first and whose later attempts
    return an error without recording a failure reason. *)
Definition failing_poll_lock : Lock Z := {|
  Obtain := fun l =>
    let k := self l + 1 in
    ((false, if k =? 1 then None else Some "disk error"),
     {| self := k; failureReason := failureReason l |});
  Release := fun l => (None, l);
  IsLocked := fun _ => true |}.

Definition show_counting_lock (l : LockImpl Z) : string := "lock".

Definition counting_run : Run Z :=
  {| lock := {| self := 0; failureReason := Some "stale" |}; trace := [] |}.

Definition show_unit_lock (l : LockImpl unit) : string := "lock".

Definition fresh_run : Run unit :=
  {| lock := {| self := tt; failureReason := None |}; trace := [] |}.

(** A backend with one file, [_0.cfs], holding the bytes 0..99, and one
    reader on it whose cursor is the state. *)
Definition file_bytes : list Z := map Z.of_nat (seq 0 100).

Definition ram_Seek (_ : unit) (pos : Z) : M (World Z) unit :=
  fun w => (Return tt, {| stdlog := stdlog w; ext := pos |}).

Definition ram_ReadBytesBuffered (_ : unit) (buf : list Z) (useBuffer : bool)
    : M (World Z) (list Z * option error) :=
  fun w =>
    let n := List.length buf in
    let pos := ext w in
    if (pos <? 0) || (pos + Z.of_nat n >? 100) then
      (Return (buf, Some "read past EOF: RAMInputStream(name=_0.cfs)"), w)
    else
      (Return (firstn n (skipn (Z.to_nat pos) file_bytes), None),
       {| stdlog := stdlog w; ext := pos + Z.of_nat n |}).

#[export] Instance ram_reader : IndexInputMethods Z unit := {|
  Seek := ram_Seek;
  ReadBytesBuffered := ram_ReadBytesBuffered;
  IndexInput_Close := fun _ => ret None;
  IndexInput_Clone := fun i => ret i;
  show_IndexInput := fun _ _ => "RAMInputStream(name=_0.cfs)" |}.

(** A buffered reader reduced to its cursor and its description. *)
#[export] Instance cursor_template : BufferedIndexInputTemplate := {|
  BufferedIndexInput := Z * string;
  BUFFER_SIZE := 1024;
  newBufferedIndexInputBySize := fun desc _ => (0, desc);
  FilePointer := fst;
  BufferedIndexInput_Clone := fun b => b;
  show_BufferedIndexInput := snd |}.

Definition ram_service : directoryService Z unit :=
  {| OpenInput := fun name context => ret (tt, None) |}.

Definition failing_service : directoryService Z unit :=
  {| OpenInput := fun name context => ret (tt, Some "no such file") |}.

Definition ram_directory : DirectoryImpl Z unit unit := NewDirectoryImpl ram_service.

Definition closed_directory : DirectoryImpl Z unit unit :=
  {| service := ram_service; IsOpen := false; lockFactory := None |}.

Definition ram_world : World Z := {| stdlog := []; ext := 0 |}.

(** The slice [[20, 50)] of the file, with its cursor at [pos]. *)
Definition ram_slice (pos : Z) : SlicedIndexInput unit :=
  {| super := (pos, "SlicedIndexInput(slice in _0.cfs)");
     base := tt; fileOffset := 20; length := 30 |}.

(** A directory whose only collaborator is an [FSLockFactory] for the lock
    directory [/index]. *)
Definition fs_service : directoryService FSLockFactory unit :=
  {| OpenInput := fun name context => ret (tt, None) |}.

Definition fs_directory : DirectoryImpl FSLockFactory unit unit :=
  NewDirectoryImpl fs_service.

Definition fs_world : World FSLockFactory :=
  {| stdlog := []; ext := {| impl := {| lockPrefix := "" |}; lockDir := "/index" |} |}.

Definition closed_fs_directory : DirectoryImpl FSLockFactory unit unit :=
  {| service := fs_service; IsOpen := false; lockFactory := None |}.

(** The bytes of the file [_0.cfs] from position [pos] on, [n] of them. *)
Definition file_content (pos : Z) (n : nat) : list Z :=
  firstn n (skipn (Z.to_nat pos) file_bytes).

End Store.

(* ===================================================================== *)
(** * Facts about package util *)
(* ===================================================================== *)

Section Int64Facts.

Lemma wrap64_id v : is_int64 v -> wrap64 v = v.
Proof.
  unfold is_int64, MIN_INT64, MAX_INT64, wrap64. intros H.
  rewrite Z.mod_small; lia.
Qed.

Lemma wrap64_range z : is_int64 (wrap64 z).
Proof.
  unfold is_int64, MIN_INT64, MAX_INT64, wrap64.
  pose proof (Z.mod_pos_bound (z + 2 ^ 63) (2 ^ 64)). lia.
Qed.

Lemma uint64_wrap64 z : uint64 (wrap64 z) = z mod 2 ^ 64.
Proof.
  unfold uint64, wrap64.
  rewrite Zminus_mod_idemp_l.
  replace (z + 2 ^ 63 - 2 ^ 63) with z by lia. reflexivity.
Qed.

Lemma add64_exact a b : is_int64 (a + b) -> add64 a b = a + b.
Proof. apply wrap64_id. Qed.

End Int64Facts.

Import BitUtil.

Section PopCount.

Lemma BYTE_COUNTS_length : List.length BYTE_COUNTS = 256%nat.
Proof. reflexivity. Qed.

(** The table is exact: entry [b] is the number of set bits of [b]. *)
Lemma BitCount_set_bits b : 0 <= b < 256 -> BitCount b = set_bits 8 b.
Proof.
  intros Hb.
  assert (Hall : forallb (fun n => BitCount (Z.of_nat n) =? set_bits 8 (Z.of_nat n))
                         (seq 0 256) = true) by (vm_compute; reflexivity).
  rewrite forallb_forall in Hall.
  specialize (Hall (Z.to_nat b)).
  rewrite Z2Nat.id in Hall by lia.
  apply Z.eqb_eq, Hall, in_seq. lia.
Qed.

Lemma pop_word_unfold v popCount :
  pop_word v popCount =
  if v >? 0 then pop_word (Z.shiftr v 8) (popCount + BitCount (byte (Z.land v 0xff)))
  else popCount.
Proof.
  rewrite pop_word_equation_1.
  destruct (Z_gt_dec v 0) as [H|H]; simpl;
    destruct (Z.gtb_spec v 0); try lia; reflexivity.
Qed.

(** The loop body is never entered for a word that is not positive. *)
Lemma pop_word_nonpos v popCount : v <= 0 -> pop_word v popCount = popCount.
Proof.
  intros H. rewrite pop_word_unfold.
  destruct (Z.gtb_spec v 0); [lia | reflexivity].
Qed.

End PopCount.

Section PopArray.

Lemma word_bytes_low_bytes w : word_bytes w = low_bytes 8 w.
Proof. reflexivity. Qed.

Lemma low_bytes_S k w :
  low_bytes (S k) w = Z.land w 0xff :: low_bytes k (Z.shiftr w 8).
Proof.
  unfold low_bytes. cbn [seq map]. rewrite <- seq_shift, map_map.
  f_equal.
  apply map_ext. intros i.
  rewrite Z.shiftr_shiftr by lia. do 2 f_equal. lia.
Qed.

Lemma low_bytes_zero k : sumZ (map BitCount (low_bytes k 0)) = 0.
Proof.
  induction k as [|k IH]; [reflexivity|].
  rewrite low_bytes_S. rewrite Z.shiftr_0_l. simpl. rewrite IH. reflexivity.
Qed.

Lemma byte_land_ff v : byte (Z.land v 0xff) = Z.land v 0xff.
Proof.
  unfold byte. change 0xff with (Z.ones 8).
  rewrite Z.land_ones by lia. apply Z.mod_mod. lia.
Qed.

(** A word that fits in [k] bytes is consumed by the loop byte by byte. *)
Lemma pop_word_low_bytes k : forall v popCount,
  0 <= v < 2 ^ (8 * Z.of_nat k) ->
  pop_word v popCount = popCount + sumZ (map BitCount (low_bytes k v)).
Proof.
  induction k as [|k IH]; intros v popCount Hv.
  - change (2 ^ (8 * Z.of_nat 0)) with 1 in Hv.
    rewrite pop_word_nonpos by lia. simpl. lia.
  - rewrite pop_word_unfold.
    destruct (Z.gtb_spec v 0) as [Hpos|Hzero].
    + rewrite IH.
      * rewrite low_bytes_S, byte_land_ff. simpl. lia.
      * rewrite Z.shiftr_div_pow2 by lia.
        split; [apply Z.div_pos; lia|].
        apply Z.div_lt_upper_bound; [lia|].
        rewrite <- Z.pow_add_r by lia.
        replace (8 + 8 * Z.of_nat k) with (8 * Z.of_nat (S k)) by lia. lia.
    + assert (v = 0) by lia. subst v. rewrite low_bytes_zero. lia.
Qed.

Lemma pop_word_nonneg v popCount :
  0 <= v <= MAX_INT64 ->
  pop_word v popCount = popCount + sumZ (map BitCount (word_bytes v)).
Proof.
  unfold MAX_INT64. intros Hv.
  rewrite word_bytes_low_bytes. apply pop_word_low_bytes.
  change (2 ^ (8 * Z.of_nat 8)) with (2 ^ 64). lia.
Qed.

Lemma pop_word_counted v popCount :
  v <= MAX_INT64 -> pop_word v popCount = popCount + counted v.
Proof.
  intros Hv. unfold counted.
  destruct (Z.gtb_spec v 0).
  - apply pop_word_nonneg. lia.
  - rewrite pop_word_nonpos by lia. lia.
Qed.

Lemma pop_array_fold arr : forall popCount,
  Forall is_int64 arr ->
  fold_left (fun popCount v => pop_word v popCount) arr popCount =
  popCount + sumZ (map counted arr).
Proof.
  induction arr as [|w arr IH]; intros popCount Harr; simpl.
  - lia.
  - inversion Harr as [|? ? Hw Hrest]; subst.
    rewrite IH by assumption.
    rewrite pop_word_counted by (apply Hw). lia.
Qed.

(** The code counts the positive words and nothing else. *)
Lemma pop_array_counted arr :
  Forall is_int64 arr -> pop_array arr = sumZ (map counted arr).
Proof.
  intros Harr. unfold pop_array. rewrite pop_array_fold by assumption. lia.
Qed.

(** On words whose sign bit is clear the code and its documentation agree. *)
Lemma pop_array_nonneg_words arr :
  Forall (fun w => 0 <= w <= MAX_INT64) arr ->
  pop_array arr = pop_array_spec arr.
Proof.
  intros Harr. rewrite pop_array_counted.
  - unfold pop_array_spec. f_equal.
    apply map_ext_in. intros w Hin.
    rewrite Forall_forall in Harr. specialize (Harr w Hin).
    unfold counted. destruct (Z.gtb_spec w 0); [reflexivity|].
    assert (w = 0) by lia. subst w. reflexivity.
  - eapply Forall_impl; [|exact Harr].
    unfold is_int64, MIN_INT64, MAX_INT64. intros; simpl in *; lia.
Qed.

(** C1 (the code at the failing input).  For the one-word slice [[-1]], all
    of whose 64 bits are set, [pop_array] returns 0: the loop guard [v > 0]
    is false for every word with the sign bit set, so such a word adds
    nothing, while the sum of [BitCount] over its eight bytes, and the number
    of its set bits, is 64. *)
Theorem pop_array_sign_bit_word :
  is_int64 (-1) /\
  pop_array [-1] = 0 /\
  pop_array_spec [-1] = 64 /\
  set_bits 64 (-1) = 64.
Proof.
  split; [unfold is_int64, MIN_INT64, MAX_INT64; lia|].
  split; [unfold pop_array; simpl; apply pop_word_nonpos; lia|].
  split; vm_compute; reflexivity.
Qed.

End PopArray.

Section ZigZag.

Lemma land_1_mod2 a : Z.land a 1 = a mod 2.
Proof. change 1 with (Z.ones 1) at 1. rewrite Z.land_ones by lia. reflexivity. Qed.

Lemma lxor_m1_l a : Z.lxor (-1) a = - a - 1.
Proof. rewrite Z.lxor_m1_l. unfold Z.lnot. lia. Qed.

Lemma lxor_m1_r a : Z.lxor a (-1) = - a - 1.
Proof. rewrite Z.lxor_comm. apply lxor_m1_l. Qed.

(** The encoder in closed form: [2v] reduced to 64 bits for [v >= 0], and its
    bitwise complement for [v < 0]. *)
Lemma ZigZagEncodeLong_cases v :
  is_int64 v ->
  ZigZagEncodeLong v = if v <? 0 then - wrap64 (2 * v) - 1 else wrap64 (2 * v).
Proof.
  unfold is_int64, MIN_INT64, MAX_INT64. intros Hv.
  unfold ZigZagEncodeLong, shl64.
  rewrite Z.shiftr_div_pow2, Z.shiftl_mul_pow2 by lia.
  replace (v * 2 ^ 1) with (2 * v) by lia.
  destruct (Z.ltb_spec v 0) as [Hneg|Hpos].
  - replace (v / 2 ^ 63) with (-1) by (Z.to_euclidean_division_equations; lia).
    apply lxor_m1_l.
  - replace (v / 2 ^ 63) with 0 by (Z.to_euclidean_division_equations; lia).
    apply Z.lxor_0_l.
Qed.

(** C2.  Decoding the zigzag encoding of any 64-bit signed integer gives the
    integer back; the range includes both extremes, 0 and -1. *)
Theorem ZigZag_roundtrip v :
  is_int64 v -> ZigZagDecodeLong (ZigZagEncodeLong v) = v.
Proof.
  intros Hv. rewrite ZigZagEncodeLong_cases by assumption.
  unfold is_int64, MIN_INT64, MAX_INT64 in Hv.
  unfold ZigZagDecodeLong, neg64.
  rewrite land_1_mod2, Z.shiftr_div_pow2 by lia.
  destruct (Z.ltb_spec v 0) as [Hneg|Hpos].
  - replace ((- wrap64 (2 * v) - 1) mod 2) with 1
      by (unfold wrap64; Z.to_euclidean_division_equations; lia).
    change (wrap64 (- (1))) with (-1).
    rewrite lxor_m1_r.
    unfold uint64, wrap64. Z.to_euclidean_division_equations. lia.
  - replace (wrap64 (2 * v) mod 2) with 0
      by (unfold wrap64; Z.to_euclidean_division_equations; lia).
    change (wrap64 (- 0)) with 0.
    rewrite Z.lxor_0_r.
    unfold uint64, wrap64. Z.to_euclidean_division_equations. lia.
Qed.

Lemma ZigZag_roundtrip_witness :
  is_int64 MIN_INT64 /\
  ZigZagDecodeLong (ZigZagEncodeLong MIN_INT64) = MIN_INT64.
Proof.
  assert (H : is_int64 MIN_INT64) by (unfold is_int64, MIN_INT64, MAX_INT64; lia).
  split; [exact H | apply (ZigZag_roundtrip MIN_INT64 H)].
Defined.

(** The four values the contract names. *)
Lemma ZigZag_roundtrip_extremes :
  ZigZagDecodeLong (ZigZagEncodeLong MIN_INT64) = MIN_INT64 /\
  ZigZagDecodeLong (ZigZagEncodeLong MAX_INT64) = MAX_INT64 /\
  ZigZagDecodeLong (ZigZagEncodeLong 0) = 0 /\
  ZigZagDecodeLong (ZigZagEncodeLong (-1)) = -1.
Proof. repeat split; vm_compute; reflexivity. Qed.

End ZigZag.

(* ===================================================================== *)
(** * More facts about package util *)
(* ===================================================================== *)

Section BitCountFacts.

Lemma set_bits_range n w : 0 <= set_bits n w <= Z.of_nat n.
Proof.
  induction n as [|n IH]; simpl set_bits; [lia|].
  destruct (Z.testbit w (Z.of_nat n)); lia.
Qed.

(** Only the bits below [n] are looked at. *)
Lemma set_bits_ext n v w :
  (forall k, 0 <= k < Z.of_nat n -> Z.testbit v k = Z.testbit w k) ->
  set_bits n v = set_bits n w.
Proof.
  induction n as [|n IH]; intros Hbits; [reflexivity|].
  simpl set_bits. rewrite Hbits by lia. rewrite IH; [reflexivity|].
  intros k Hk. apply Hbits. lia.
Qed.

Lemma set_bits_low_byte b : set_bits 8 (Z.land b 0xff) = set_bits 8 b.
Proof.
  apply set_bits_ext. intros k Hk.
  change 0xff with (Z.ones 8).
  rewrite Z.land_spec, Z.ones_spec_low by lia. apply andb_true_r.
Qed.

(** The bits of a word, split at bit [n]. *)
Lemma set_bits_split n m w :
  set_bits (n + m) w = set_bits m (Z.shiftr w (Z.of_nat n)) + set_bits n w.
Proof.
  induction m as [|m IH].
  - rewrite Nat.add_0_r. simpl. lia.
  - rewrite Nat.add_succ_r. simpl set_bits. rewrite IH.
    rewrite Z.shiftr_spec by lia.
    replace (Z.of_nat m + Z.of_nat n) with (Z.of_nat (n + m)) by lia. lia.
Qed.

(** The table look-up for the low byte of a word counts the low eight bits
    of the word. *)
Lemma BitCount_low_byte w : BitCount (Z.land w 0xff) = set_bits 8 w.
Proof.
  assert (Hlow : 0 <= Z.land w 0xff < 256).
  { change 0xff with (Z.ones 8). rewrite Z.land_ones by lia.
    apply Z.mod_pos_bound. lia. }
  rewrite (BitCount_set_bits _ Hlow). apply set_bits_low_byte.
Qed.

(** X1.  [BitCount] is exact on every argument: the table entry it returns
    is the number of bits that are set among the low eight bits. *)
Theorem BitCount_counts_bits b : BitCount b = set_bits 8 b.
Proof.
  rewrite <- BitCount_low_byte.
  unfold BitCount. do 2 f_equal.
  change 0xFF with (Z.ones 8). change 0xff with (Z.ones 8).
  rewrite <- Z.land_assoc, Z.land_diag. reflexivity.
Qed.

Lemma low_bytes_set_bits k : forall w,
  sumZ (map BitCount (low_bytes k w)) = set_bits (8 * k) w.
Proof.
  induction k as [|k IH]; intros w; [reflexivity|].
  rewrite low_bytes_S. simpl map. simpl sumZ. rewrite IH.
  rewrite BitCount_low_byte.
  replace (8 * S k)%nat with (8 + 8 * k)%nat by lia.
  rewrite set_bits_split. change (Z.of_nat 8) with 8. lia.
Qed.

(** The eight table look-ups of a word add up to its 64 bits. *)
Lemma word_bytes_set_bits w : sumZ (map BitCount (word_bytes w)) = set_bits 64 w.
Proof. rewrite word_bytes_low_bytes. apply (low_bytes_set_bits 8). Qed.

Lemma counted_set_bits w : counted w = if w >? 0 then set_bits 64 w else 0.
Proof. unfold counted. rewrite word_bytes_set_bits. reflexivity. Qed.

Lemma sign_bit_clear w : 0 <= w <= MAX_INT64 -> Z.testbit w 63 = false.
Proof.
  unfold MAX_INT64. intros Hw.
  destruct (Z.eq_dec w 0) as [->|Hnz]; [reflexivity|].
  apply Z.bits_above_log2; [lia|].
  apply Z.log2_lt_pow2; lia.
Qed.

(** X2.  What [pop_array] returns: the number of set bits of the positive
    words of the slice; a word that is zero or negative adds nothing. *)
Theorem pop_array_positive_words arr :
  Forall is_int64 arr ->
  pop_array arr = sumZ (map (fun w => if w >? 0 then set_bits 64 w else 0) arr).
Proof.
  intros Harr. rewrite pop_array_counted by assumption.
  f_equal. apply map_ext. intros w. apply counted_set_bits.
Qed.

Lemma pop_array_positive_words_witness :
  Forall is_int64 [5; -1; 0; MAX_INT64] /\
  pop_array [5; -1; 0; MAX_INT64] = 65.
Proof.
  assert (H : Forall is_int64 [5; -1; 0; MAX_INT64]).
  { repeat constructor; unfold MIN_INT64, MAX_INT64; lia. }
  split; [exact H | exact (pop_array_positive_words _ H)].
Defined.

(** X3.  On a slice without negative words [pop_array] is the population
    count: the number of set bits of all the words. *)
Theorem pop_array_popcount arr :
  Forall (fun w => 0 <= w <= MAX_INT64) arr ->
  pop_array arr = sumZ (map (set_bits 64) arr).
Proof.
  intros Harr. rewrite pop_array_nonneg_words by assumption.
  unfold pop_array_spec. f_equal. apply map_ext. intros w. apply word_bytes_set_bits.
Qed.

Lemma pop_array_popcount_witness :
  Forall (fun w => 0 <= w <= MAX_INT64) [0; 255; 4096; MAX_INT64] /\
  pop_array [0; 255; 4096; MAX_INT64] = 72.
Proof.
  assert (H : Forall (fun w => 0 <= w <= MAX_INT64) [0; 255; 4096; MAX_INT64]).
  { repeat constructor; unfold MAX_INT64; lia. }
  split; [exact H | exact (pop_array_popcount _ H)].
Defined.

Lemma counted_range w : is_int64 w -> 0 <= counted w <= 63.
Proof.
  intros [_ Hmax]. rewrite counted_set_bits.
  destruct (Z.gtb_spec w 0); [|lia].
  change (set_bits 64 w) with ((if Z.testbit w 63 then 1 else 0) + set_bits 63 w).
  rewrite sign_bit_clear by lia.
  pose proof (set_bits_range 63 w). lia.
Qed.

(** X4.  The result of [pop_array] lies between 0 and 63 times the length of
    the slice: no word is ever counted with 64 bits. *)
Theorem pop_array_range arr :
  Forall is_int64 arr ->
  0 <= pop_array arr <= 63 * Z.of_nat (List.length arr).
Proof.
  intros Harr. rewrite pop_array_counted by assumption.
  induction Harr as [|w arr Hw Harr IH]; [simpl; lia|].
  pose proof (counted_range w Hw).
  change (sumZ (map counted (w :: arr))) with (counted w + sumZ (map counted arr)).
  rewrite length_cons. lia.
Qed.

Lemma pop_array_range_witness :
  Forall is_int64 [MAX_INT64; MIN_INT64] /\
  0 <= pop_array [MAX_INT64; MIN_INT64] <= 63 * 2.
Proof.
  assert (H : Forall is_int64 [MAX_INT64; MIN_INT64]).
  { repeat constructor; unfold MIN_INT64, MAX_INT64; lia. }
  split; [exact H | exact (pop_array_range _ H)].
Defined.

Lemma bits_left_shiftr v : v > 0 -> (bits_left (Z.shiftr v 8) < bits_left v)%nat.
Proof.
  intros Hv. unfold bits_left.
  destruct (Z.leb_spec v 0); [lia|].
  destruct (Z.leb_spec (Z.shiftr v 8) 0); [lia|].
  rewrite Z.log2_shiftr by lia.
  assert (8 <= Z.log2 v).
  { destruct (Z.lt_ge_cases (Z.log2 v) 8) as [Hlt|]; [|lia].
    exfalso.
    assert (v < 2 ^ 8) by (apply Z.log2_lt_pow2; lia).
    rewrite Z.shiftr_div_pow2, Z.div_small in *; lia. }
  rewrite Z.max_r by lia. lia.
Qed.

(** The running total only has the bytes of the word added to it. *)
Lemma pop_word_total v popCount : pop_word v popCount = popCount + pop_word v 0.
Proof.
  remember (bits_left v) as n eqn:Hn.
  revert v popCount Hn.
  induction n as [n IH] using lt_wf_ind. intros v popCount Hn.
  rewrite (pop_word_unfold v popCount), (pop_word_unfold v 0).
  destruct (Z.gtb_spec v 0) as [Hpos|Hnonpos]; [|lia].
  assert (Hlt : (bits_left (Z.shiftr v 8) < n)%nat) by (subst n; apply bits_left_shiftr; lia).
  rewrite (IH _ Hlt _ (popCount + _) eq_refl), (IH _ Hlt _ (0 + _) eq_refl). lia.
Qed.

Lemma pop_array_total arr : forall popCount,
  fold_left (fun popCount v => pop_word v popCount) arr popCount = popCount + pop_array arr.
Proof.
  unfold pop_array.
  induction arr as [|w arr IH]; intros popCount; simpl; [lia|].
  rewrite (IH (pop_word w popCount)), (IH (pop_word w 0)), (pop_word_total w popCount). lia.
Qed.

(** X5.  Counting is additive: the count of two slices put together is the
    sum of their counts, and the empty slice counts 0. *)
Theorem pop_array_app arr1 arr2 :
  pop_array (arr1 ++ arr2) = pop_array arr1 + pop_array arr2 /\ pop_array [] = 0.
Proof.
  split; [|reflexivity].
  unfold pop_array at 1. rewrite fold_left_app. fold (pop_array arr1).
  apply pop_array_total.
Qed.

End BitCountFacts.

Section ZigZagFacts.

(** The decoder in closed form: half the unsigned value for an even code,
    and the complement of that half for an odd one. *)
Lemma ZigZagDecodeLong_cases l :
  is_int64 l ->
  ZigZagDecodeLong l =
  if l mod 2 =? 0 then uint64 l / 2 else - (uint64 l / 2) - 1.
Proof.
  unfold is_int64, MIN_INT64, MAX_INT64. intros Hl.
  unfold ZigZagDecodeLong, neg64.
  rewrite land_1_mod2, Z.shiftr_div_pow2 by lia. change (2 ^ 1) with 2.
  assert (Hhalf : wrap64 (uint64 l / 2) = uint64 l / 2).
  { apply wrap64_id. unfold is_int64, MIN_INT64, MAX_INT64, uint64.
    Z.to_euclidean_division_equations. lia. }
  rewrite Hhalf.
  destruct (Z.eqb_spec (l mod 2) 0) as [Heven|Hodd].
  - rewrite Heven. change (wrap64 (- 0)) with 0. apply Z.lxor_0_r.
  - replace (l mod 2) with 1 by (Z.to_euclidean_division_equations; lia).
    change (wrap64 (- (1))) with (-1). apply lxor_m1_r.
Qed.

(** X6.  The codec is a bijection on [int64]: decoding stays in range, and
    encoding what was decoded gives the code back. *)
Theorem ZigZag_decode_encode l :
  is_int64 l ->
  is_int64 (ZigZagDecodeLong l) /\ ZigZagEncodeLong (ZigZagDecodeLong l) = l.
Proof.
  intros Hl.
  assert (Hrange : is_int64 (ZigZagDecodeLong l)).
  { rewrite ZigZagDecodeLong_cases by assumption.
    unfold is_int64, MIN_INT64, MAX_INT64, uint64 in *.
    destruct (l mod 2 =? 0); Z.to_euclidean_division_equations; lia. }
  split; [exact Hrange|].
  rewrite ZigZagEncodeLong_cases by assumption.
  rewrite ZigZagDecodeLong_cases by assumption.
  unfold is_int64, MIN_INT64, MAX_INT64 in Hl.
  destruct (Z.eqb_spec (l mod 2) 0) as [Heven|Hodd].
  - destruct (Z.ltb_spec (uint64 l / 2) 0) as [Hneg|_].
    + exfalso. unfold uint64 in Hneg. Z.to_euclidean_division_equations. lia.
    + unfold uint64, wrap64. Z.to_euclidean_division_equations. lia.
  - destruct (Z.ltb_spec (- (uint64 l / 2) - 1) 0) as [_|Hpos].
    + unfold uint64, wrap64. Z.to_euclidean_division_equations. lia.
    + exfalso. unfold uint64 in Hpos. Z.to_euclidean_division_equations. lia.
Qed.

Lemma ZigZag_decode_encode_witness :
  is_int64 (-1) /\
  is_int64 (ZigZagDecodeLong (-1)) /\ ZigZagEncodeLong (ZigZagDecodeLong (-1)) = -1.
Proof.
  assert (H : is_int64 (-1)) by (unfold is_int64, MIN_INT64, MAX_INT64; lia).
  split; [exact H | exact (ZigZag_decode_encode (-1) H)].
Defined.

(** X7.  The encoder interleaves the signs: read as an unsigned 64-bit
    number the code of [v >= 0] is [2v] and the code of [v < 0] is [-2v-1],
    so 0, -1, 1, -2, 2, ... get the codes 0, 1, 2, 3, 4, ...; the code is
    again an [int64]. *)
Theorem ZigZagEncodeLong_interleaves v :
  is_int64 v ->
  is_int64 (ZigZagEncodeLong v) /\
  uint64 (ZigZagEncodeLong v) = if v <? 0 then - 2 * v - 1 else 2 * v.
Proof.
  intros Hv. rewrite ZigZagEncodeLong_cases by assumption.
  pose proof (wrap64_range (2 * v)) as Hw.
  unfold is_int64, MIN_INT64, MAX_INT64 in *.
  destruct (Z.ltb_spec v 0) as [Hneg|Hpos]; (split; [lia|]);
    unfold uint64, wrap64; Z.to_euclidean_division_equations; lia.
Qed.

Lemma ZigZagEncodeLong_interleaves_witness :
  is_int64 (-3) /\
  is_int64 (ZigZagEncodeLong (-3)) /\ uint64 (ZigZagEncodeLong (-3)) = 5.
Proof.
  assert (H : is_int64 (-3)) by (unfold is_int64, MIN_INT64, MAX_INT64; lia).
  split; [exact H | exact (ZigZagEncodeLong_interleaves (-3) H)].
Defined.

End ZigZagFacts.

Section BitListFacts.

Lemma BIT_LISTS_length : List.length BIT_LISTS = 256%nat.
Proof. reflexivity. Qed.

(** X8.  Entry [b] of [BIT_LISTS] is what the generator in the comment
    computes for [b]; its 4 bit numbers, read from the lowest, are the numbers
    (from 1) of the set bits of [b] in ascending order, and there are
    [BitCount(b)] of them. *)
Theorem BIT_LISTS_entries b :
  0 <= b < 256 ->
  nth (Z.to_nat b) BIT_LISTS 0 = bits2int b /\
  nibbles 8 (nth (Z.to_nat b) BIT_LISTS 0) = set_bit_numbers b /\
  Z.of_nat (List.length (nibbles 8 (nth (Z.to_nat b) BIT_LISTS 0))) = BitCount b.
Proof.
  intros Hb.
  assert (Hall : forallb
            (fun n =>
               let b := Z.of_nat n in
               let entry := nth n BIT_LISTS 0 in
               (entry =? bits2int b) &&
               (if list_eq_dec Z.eq_dec (nibbles 8 entry) (set_bit_numbers b)
                then true else false) &&
               (Z.of_nat (List.length (nibbles 8 entry)) =? BitCount b))
            (seq 0 256) = true) by (vm_compute; reflexivity).
  rewrite forallb_forall in Hall.
  specialize (Hall (Z.to_nat b)). cbv zeta in Hall.
  rewrite Z2Nat.id in Hall by lia.
  assert (Hin : In (Z.to_nat b) (seq 0 256)) by (apply in_seq; lia).
  apply Hall in Hin. apply andb_true_iff in Hin. destruct Hin as [Hin H3].
  apply andb_true_iff in Hin. destruct Hin as [H1 H2].
  apply Z.eqb_eq in H1, H3.
  destruct (list_eq_dec Z.eq_dec _ _) as [H2'|]; [|discriminate].
  repeat split; assumption.
Qed.

Lemma BIT_LISTS_entries_witness :
  0 <= 0xA5 < 256 /\
  nth 165 BIT_LISTS 0 = 0x8631 /\
  nibbles 8 (nth 165 BIT_LISTS 0) = [1; 3; 6; 8] /\
  Z.of_nat (List.length (nibbles 8 (nth 165 BIT_LISTS 0))) = 4.
Proof.
  assert (H : 0 <= 0xA5 < 256) by lia.
  split; [exact H | exact (BIT_LISTS_entries 0xA5 H)].
Defined.

End BitListFacts.

(* ===================================================================== *)
(** * Facts about package store *)
(* ===================================================================== *)

Import Store.
Local Open Scope string_scope.
Local Open Scope list_scope.
Local Open Scope Z_scope.

Section IOContextFacts.

(** Every kind other than MERGE and FLUSH is accepted by
    [NewIOContextFromType], and the context carries neither info. *)
Lemma NewIOContextFromType_plain kind :
  kind <> IO_CONTEXT_TYPE_MERGE ->
  kind <> IO_CONTEXT_TYPE_FLUSH ->
  NewIOContextFromType kind =
  Return {| context := kind; mergeInfo := None; flushInfo := None; readOnce := false |}.
Proof.
  intros Hm Hf. unfold NewIOContextFromType.
  apply Z.eqb_neq in Hm, Hf. rewrite Hm, Hf. reflexivity.
Qed.

Lemma NewIOContextForFlush_some info :
  NewIOContextForFlush (Some info) =
  Return {| context := IO_CONTEXT_TYPE_FLUSH; mergeInfo := None;
            flushInfo := Some info; readOnce := false |}.
Proof. reflexivity. Qed.

Lemma NewIOContextForMerge_some info :
  NewIOContextForMerge (Some info) =
  Return {| context := IO_CONTEXT_TYPE_MERGE; mergeInfo := Some info;
            flushInfo := None; readOnce := false |}.
Proof. reflexivity. Qed.

(** C3.  The constructors enforce the pairing of kind and info: a nil
    [FlushInfo] or [MergeInfo] makes its constructor panic, the kinds MERGE
    and FLUSH make [NewIOContextFromType] panic, and the kinds READ and
    DEFAULT give a context of that kind without [MergeInfo] and without
    [FlushInfo]. *)
Theorem IOContext_constructor_preconditions :
  NewIOContextForFlush None = Panic "assert fail" /\
  NewIOContextForMerge None = Panic "MergeInfo must not be nil if context is MERGE" /\
  NewIOContextFromType IO_CONTEXT_TYPE_MERGE =
    Panic "Use NewIOContextForMerge() to create a MERGE IOContext" /\
  NewIOContextFromType IO_CONTEXT_TYPE_FLUSH =
    Panic "Use NewIOContextForFlush() to create a FLUSH IOContext" /\
  (exists ctx, NewIOContextFromType IO_CONTEXT_TYPE_READ = Return ctx /\
               context ctx = IO_CONTEXT_TYPE_READ /\
               mergeInfo ctx = None /\ flushInfo ctx = None) /\
  (exists ctx, NewIOContextFromType IO_CONTEXT_TYPE_DEFAULT = Return ctx /\
               context ctx = IO_CONTEXT_TYPE_DEFAULT /\
               mergeInfo ctx = None /\ flushInfo ctx = None).
Proof.
  repeat split; try reflexivity;
    eexists; (split; [reflexivity | repeat split]).
Qed.

End IOContextFacts.

Section LockFacts.

Context {Backend : Type} {lock_methods : Lock Backend}.
Context (show_lock : LockImpl Backend -> string).

Lemma call_Obtain_trace (r : Run Backend) :
  trace (snd (call_Obtain r)) =
  trace r ++ [ObtainCalled (fst (fst (call_Obtain r))) (snd (fst (call_Obtain r)))].
Proof. unfold call_Obtain. destruct (Obtain (lock r)) as [res l]. reflexivity. Qed.

Lemma call_Obtain_lock (r : Run Backend) :
  (fst (call_Obtain r), lock (snd (call_Obtain r))) = Obtain (lock r).
Proof. unfold call_Obtain. destruct (Obtain (lock r)) as [res l]. reflexivity. Qed.

(** The loop is left at once when the lock is held. *)
Lemma loop_locked fuel t maxSleepCount sleepCount err (r : Run Backend) :
  ObtainWithin_loop show_lock fuel t maxSleepCount sleepCount true err r = Some (Return (true, err), r).
Proof. destruct fuel; reflexivity. Qed.

(** The loop is left with the timeout error when the sleeps are used up. *)
Lemma loop_timeout_now fuel t maxSleepCount sleepCount err (r : Run Backend) :
  t <> LOCK_OBTAIN_WAIT_FOREVER ->
  maxSleepCount <= sleepCount ->
  ObtainWithin_loop show_lock fuel t maxSleepCount sleepCount false err r =
  Some (Return (false, Some (timeout_error show_lock (lock r))), r).
Proof.
  intros Ht Hs.
  assert (E : negb (t =? LOCK_OBTAIN_WAIT_FOREVER) && (sleepCount >=? maxSleepCount) = true).
  { apply andb_true_iff. split.
    - apply negb_true_iff, Z.eqb_neq, Ht.
    - apply Z.geb_le. lia. }
  destruct fuel; simpl; rewrite E; reflexivity.
Qed.

(** Otherwise it sleeps, tries again and goes round. *)
Lemma loop_step fuel t maxSleepCount sleepCount err (r : Run Backend) :
  t = LOCK_OBTAIN_WAIT_FOREVER \/ sleepCount < maxSleepCount ->
  ObtainWithin_loop show_lock (S fuel) t maxSleepCount sleepCount false err r =
  ObtainWithin_loop show_lock fuel t maxSleepCount (add64 sleepCount 1)
       (fst (fst (poll r))) (snd (fst (poll r))) (snd (poll r)).
Proof.
  intros Hgo.
  assert (E : negb (t =? LOCK_OBTAIN_WAIT_FOREVER) && (sleepCount >=? maxSleepCount) = false).
  { apply andb_false_iff. destruct Hgo as [Ht|Hs].
    - left. apply negb_false_iff, Z.eqb_eq, Ht.
    - right. destruct (Z.geb_spec sleepCount maxSleepCount); [lia | reflexivity]. }
  simpl. rewrite E. unfold poll.
  destruct (call_Obtain (time_Sleep LOCK_POOL_INTERVAL r)) as [[locked err'] r'].
  reflexivity.
Qed.

(** A lock that stays taken through the remaining polls ends the loop with
    the timeout error, made from the lock as the last poll left it. *)
Lemma loop_times_out n : forall fuel t maxSleepCount sleepCount err (r : Run Backend),
  t <> LOCK_OBTAIN_WAIT_FOREVER ->
  0 <= sleepCount ->
  sleepCount + Z.of_nat n = maxSleepCount ->
  maxSleepCount <= MAX_INT64 ->
  (n <= fuel)%nat ->
  never_locked n r = true ->
  ObtainWithin_loop show_lock fuel t maxSleepCount sleepCount false err r =
  Some (Return (false, Some (timeout_error show_lock (lock (polls n r)))), polls n r).
Proof.
  induction n as [|n IH]; intros fuel t maxSleepCount sleepCount err r Ht H0 Hn Hmax Hfuel Hnever.
  - simpl. apply loop_timeout_now; [assumption | lia].
  - destruct fuel as [|fuel]; [lia|].
    simpl in Hnever. apply andb_true_iff in Hnever. destruct Hnever as [Hpoll Hrest].
    apply negb_true_iff in Hpoll.
    rewrite loop_step by lia. rewrite Hpoll. simpl polls.
    assert (Hadd : add64 sleepCount 1 = sleepCount + 1).
    { apply add64_exact. unfold is_int64, MIN_INT64, MAX_INT64 in *. lia. }
    rewrite Hadd.
    apply IH; try assumption; lia.
Qed.

(** With a deadline the loop returns: fuel for the sleeps that the deadline
    allows is enough. *)
Lemma loop_returns n : forall fuel t maxSleepCount sleepCount locked err (r : Run Backend),
  t <> LOCK_OBTAIN_WAIT_FOREVER ->
  0 <= sleepCount ->
  sleepCount + Z.of_nat n = maxSleepCount ->
  maxSleepCount <= MAX_INT64 ->
  (n <= fuel)%nat ->
  exists res, ObtainWithin_loop show_lock fuel t maxSleepCount sleepCount locked err r = Some res.
Proof.
  induction n as [|n IH]; intros fuel t maxSleepCount sleepCount locked err r Ht H0 Hn Hmax Hfuel;
    (destruct locked; [rewrite loop_locked; eexists; reflexivity|]).
  - rewrite loop_timeout_now by (assumption || lia). eexists; reflexivity.
  - destruct fuel as [|fuel]; [lia|].
    rewrite loop_step by lia.
    assert (Hadd : add64 sleepCount 1 = sleepCount + 1).
    { apply add64_exact. unfold is_int64, MIN_INT64, MAX_INT64 in *. lia. }
    rewrite Hadd. apply IH; try assumption; lia.
Qed.

(** [ObtainWithin] up to the loop: it always starts with one attempt. *)
Lemma ObtainWithin_unfold fuel t (r : Run Backend) :
  ObtainWithin show_lock fuel t r =
  let first := call_Obtain (reset_failureReason r) in
  match snd (fst first) with
  | Some _ => Some (Return (fst first), snd first)
  | None =>
      if (t >=? 0) || (t =? LOCK_OBTAIN_WAIT_FOREVER)
      then ObtainWithin_loop show_lock fuel t (Z.quot t LOCK_POOL_INTERVAL) 0
             (fst (fst first)) None (snd first)
      else Some (Panic (bad_timeout t), snd first)
  end.
Proof.
  unfold ObtainWithin. cbv zeta.
  destruct (call_Obtain (reset_failureReason r)) as [[locked err] r1].
  destruct err as [e|]; simpl; [reflexivity|].
  unfold assert2.
  destruct ((t >=? 0) || (t =? LOCK_OBTAIN_WAIT_FOREVER)); reflexivity.
Qed.

(** Every call with a timeout that is not LOCK_OBTAIN_WAIT_FOREVER returns or
    panics, whatever the lock does. *)
Lemma ObtainWithin_returns fuel t (r : Run Backend) :
  is_int64 t ->
  t <> LOCK_OBTAIN_WAIT_FOREVER ->
  (Z.to_nat (Z.quot t LOCK_POOL_INTERVAL) <= fuel)%nat ->
  exists res, ObtainWithin show_lock fuel t r = Some res.
Proof.
  intros Hint Ht Hfuel. rewrite ObtainWithin_unfold. cbv zeta.
  destruct (snd (fst (call_Obtain (reset_failureReason r)))); [eexists; reflexivity|].
  destruct (Z.geb_spec t 0) as [Hpos|Hneg]; cbn [orb].
  - unfold is_int64, MIN_INT64, MAX_INT64 in Hint.
    assert (Hq : 0 <= Z.quot t LOCK_POOL_INTERVAL <= t).
    { unfold LOCK_POOL_INTERVAL. rewrite Z.quot_div_nonneg by lia.
      Z.to_euclidean_division_equations. lia. }
    apply loop_returns with (n := Z.to_nat (Z.quot t LOCK_POOL_INTERVAL));
      try assumption; unfold MAX_INT64; lia.
  - destruct (Z.eqb_spec t LOCK_OBTAIN_WAIT_FOREVER); [contradiction|].
    eexists; reflexivity.
Qed.

(** C4 (amended).  With a negative timeout other than
    LOCK_OBTAIN_WAIT_FOREVER, [ObtainWithin] makes exactly one attempt and
    never sleeps; when that attempt returns an error, the error is returned
    as it is; when it returns no error, the call panics with the message of
    the assertion, whether the attempt obtained the lock or not. *)
Theorem ObtainWithin_negative_timeout fuel t (r : Run Backend) :
  t < 0 ->
  t <> LOCK_OBTAIN_WAIT_FOREVER ->
  let first := call_Obtain (reset_failureReason r) in
  ObtainWithin show_lock fuel t r =
    Some (match snd (fst first) with
          | Some _ => Return (fst first)
          | None => Panic (bad_timeout t)
          end, snd first) /\
  trace (snd first) = trace r ++ [ObtainCalled (fst (fst first)) (snd (fst first))].
Proof.
  intros Hneg Hforever first. split.
  - rewrite ObtainWithin_unfold. cbv zeta. fold first.
    destruct (snd (fst first)); [reflexivity|].
    destruct (Z.geb_spec t 0); [lia|].
    destruct (Z.eqb_spec t LOCK_OBTAIN_WAIT_FOREVER); [contradiction | reflexivity].
  - subst first. rewrite call_Obtain_trace. reflexivity.
Qed.

Lemma polls_S_last n : forall r : Run Backend,
  polls (S n) r = snd (poll (polls n r)).
Proof.
  induction n as [|n IH]; intros r; [reflexivity|].
  change (polls (S (S n)) r) with (polls (S n) (snd (poll r))).
  rewrite IH. reflexivity.
Qed.

Lemma poll_lock (r : Run Backend) : lock (snd (poll r)) = snd (Obtain (lock r)).
Proof.
  unfold poll, call_Obtain. cbn [time_Sleep lock].
  destruct (Obtain (lock r)) as [res l]. reflexivity.
Qed.

(** The lock after the polls is the lock as the last call of [Obtain]
    returned it: neither the sleeps nor the loop touch it. *)
Lemma lock_after_polls n (r : Run Backend) :
  lock (polls n (snd (call_Obtain r))) =
  snd (Obtain (match n with
               | O => lock r
               | S k => lock (polls k (snd (call_Obtain r)))
               end)).
Proof.
  destruct n as [|k].
  - unfold call_Obtain. simpl. destruct (Obtain (lock r)) as [res l]. reflexivity.
  - rewrite polls_S_last. apply poll_lock.
Qed.

(** C5 (amended).  When [ObtainWithin] times out, that is, the first attempt
    returns [(false, nil)] and none of the polls that the timeout allows
    obtains the lock, the error it returns is made from the lock as the most
    recent call of [Obtain] left it: the text ends with the reason which that
    call left in [failureReason], whenever there is one, and is the bare
    timeout text when the field is nil. *)
Theorem ObtainWithin_timeout_reason fuel t (r : Run Backend) :
  0 <= t <= MAX_INT64 ->
  let n := Z.to_nat (Z.quot t LOCK_POOL_INTERVAL) in
  let first := call_Obtain (reset_failureReason r) in
  let final := polls n (snd first) in
  let last_call := Obtain (match n with
                           | O => lock (reset_failureReason r)
                           | S k => lock (polls k (snd first))
                           end) in
  (n <= fuel)%nat ->
  fst first = (false, None) ->
  never_locked n (snd first) = true ->
  ObtainWithin show_lock fuel t r =
    Some (Return (false, Some (timeout_error show_lock (lock final))), final) /\
  lock final = snd last_call /\
  (forall reason, failureReason (snd last_call) = Some reason ->
     timeout_error show_lock (lock final) =
     ("Lock obtain time out: " ++ show_lock (lock final) ++ ": " ++ reason)%string) /\
  (failureReason (snd last_call) = None ->
     timeout_error show_lock (lock final) =
     ("Lock obtain time out: " ++ show_lock (lock final))%string).
Proof.
  intros Ht n first final last_call Hfuel Hfirst Hnever.
  assert (Hq : 0 <= Z.quot t LOCK_POOL_INTERVAL <= t).
  { unfold LOCK_POOL_INTERVAL. rewrite Z.quot_div_nonneg by lia.
    Z.to_euclidean_division_equations. lia. }
  assert (Hlast : lock final = snd last_call).
  { subst final last_call first. apply lock_after_polls. }
  split; [|split; [exact Hlast|split]].
  - rewrite ObtainWithin_unfold. cbv zeta. fold first. rewrite Hfirst. cbn [fst snd].
    destruct (Z.geb_spec t 0); [|lia]. cbn [orb].
    apply loop_times_out; try assumption; try lia.
    unfold LOCK_OBTAIN_WAIT_FOREVER. lia.
  - intros reason Hreason. rewrite <- Hlast in Hreason.
    unfold timeout_error. rewrite Hreason. reflexivity.
  - intros Hnone. rewrite <- Hlast in Hnone.
    unfold timeout_error. rewrite Hnone. reflexivity.
Qed.

(** C6.  Against a lock whose [Obtain] always returns [(false, nil)],
    [ObtainWithin(2500)] tries three times, one second apart, and then
    returns [false] with the timeout error. *)
Theorem ObtainWithin_2500_polls_three_times fuel (r : Run Backend) :
  (forall l, fst (Obtain l) = (false, None)) ->
  (2 <= fuel)%nat ->
  let final := polls 2 (snd (call_Obtain (reset_failureReason r))) in
  ObtainWithin show_lock fuel 2500 r =
    Some (Return (false, Some (timeout_error show_lock (lock final))), final) /\
  trace final = trace r ++ [ObtainCalled false None; Slept LOCK_POOL_INTERVAL;
                            ObtainCalled false None; Slept LOCK_POOL_INTERVAL;
                            ObtainCalled false None] /\
  (3 <= List.length (filter is_ObtainCalled (skipn (List.length (trace r)) (trace final))))%nat.
Proof.
  intros Hbusy Hfuel final.
  assert (Hcall : forall x : Run Backend, fst (call_Obtain x) = (false, None)).
  { intros x. unfold call_Obtain. specialize (Hbusy (lock x)).
    destruct (Obtain (lock x)) as [res l]. exact Hbusy. }
  assert (Hpoll : forall x : Run Backend, fst (poll x) = (false, None)).
  { intros x. apply Hcall. }
  assert (Htrace : trace final =
                   trace r ++ [ObtainCalled false None; Slept LOCK_POOL_INTERVAL;
                               ObtainCalled false None; Slept LOCK_POOL_INTERVAL;
                               ObtainCalled false None]).
  { subst final. simpl polls. unfold poll.
    repeat (rewrite call_Obtain_trace, Hcall; cbn [fst snd time_Sleep trace]).
    repeat rewrite <- app_assoc. reflexivity. }
  split; [|split].
  - rewrite ObtainWithin_unfold. cbv zeta. rewrite Hcall. cbn [fst snd].
    change ((2500 >=? 0) || (2500 =? LOCK_OBTAIN_WAIT_FOREVER)) with true. cbv iota.
    change (Z.quot 2500 LOCK_POOL_INTERVAL) with 2.
    apply loop_times_out; try assumption.
    + discriminate.
    + lia.
    + reflexivity.
    + unfold MAX_INT64. lia.
    + simpl. rewrite !Hpoll. reflexivity.
  - exact Htrace.
  - rewrite Htrace, skipn_app, skipn_all, Nat.sub_diag. simpl. lia.
Qed.

End LockFacts.

Section LockExamples.

(** C4 (counterexample).  The lock [broken_lock] reports an error on every
    attempt.  [ObtainWithin(-5)] on it does not panic: it makes its first
    attempt and returns the error of that attempt. *)
Lemma ObtainWithin_negative_timeout_returns_error :
  -5 < 0 /\ -5 <> LOCK_OBTAIN_WAIT_FOREVER /\
  ObtainWithin (lock_methods := broken_lock) show_unit_lock 0 (-5) fresh_run =
    Some (Return (false, Some "lock file unreadable"),
          {| lock := {| self := tt; failureReason := None |};
             trace := [ObtainCalled false (Some "lock file unreadable")] |}) /\
  (forall msg r', ObtainWithin (lock_methods := broken_lock) show_unit_lock 0 (-5) fresh_run
                  <> Some (Panic msg, r')).
Proof.
  split; [lia|]. split; [discriminate|]. split; [reflexivity|].
  intros msg r'. discriminate.
Qed.

Lemma ObtainWithin_negative_timeout_witness :
  -5 < 0 /\ -5 <> LOCK_OBTAIN_WAIT_FOREVER /\
  ObtainWithin (lock_methods := busy_lock) show_unit_lock 0 (-5) fresh_run =
    Some (Panic (bad_timeout (-5)),
          {| lock := {| self := tt; failureReason := Some "held by another process" |};
             trace := [ObtainCalled false None] |}).
Proof.
  assert (H1 : -5 < 0) by lia.
  assert (H2 : -5 <> LOCK_OBTAIN_WAIT_FOREVER) by discriminate.
  split; [exact H1|]. split; [exact H2|].
  exact (proj1 (ObtainWithin_negative_timeout (lock_methods := busy_lock)
                  show_unit_lock 0 (-5) fresh_run H1 H2)).
Defined.

(** Three attempts are made in 2500 ms; the reason in the error is the one
    of the third, and the reason that was recorded before the call is gone. *)
Lemma ObtainWithin_timeout_reason_witness :
  0 <= 2500 <= MAX_INT64 /\
  ObtainWithin (lock_methods := counting_lock 0) show_counting_lock 2 2500 counting_run =
    Some (Return (false, Some "Lock obtain time out: lock: attempt 3"),
          {| lock := {| self := 3; failureReason := Some "attempt 3" |};
             trace := [ObtainCalled false None; Slept 1000;
                       ObtainCalled false None; Slept 1000;
                       ObtainCalled false None] |}).
Proof.
  assert (H1 : 0 <= 2500 <= MAX_INT64) by (unfold MAX_INT64; lia).
  split; [exact H1|].
  exact (proj1 (ObtainWithin_timeout_reason (lock_methods := counting_lock 0)
                  show_counting_lock 2 2500 counting_run H1 (le_n 2) eq_refl eq_refl)).
Defined.

(** C5 (counterexample).  The lock [failing_poll_lock] is taken at the
    first attempt, and its two later attempts fail with the error
    ["disk error"], which is the most recent reason of failure the attempts
    gave.  [ObtainWithin(2500)] times out on it, and the timeout error does
    not contain that text. *)
Lemma ObtainWithin_timeout_omits_poll_error :
  ObtainWithin (lock_methods := failing_poll_lock) show_counting_lock 2 2500 counting_run =
    Some (Return (false, Some "Lock obtain time out: lock"),
          {| lock := {| self := 3; failureReason := None |};
             trace := [ObtainCalled false None; Slept 1000;
                       ObtainCalled false (Some "disk error"); Slept 1000;
                       ObtainCalled false (Some "disk error")] |}) /\
  String.index 0 "disk error" "Lock obtain time out: lock" = None.
Proof. split; reflexivity. Qed.

(** The error value that a poll returns beside [false] is not what the
    timeout error reports: only [failureReason] is. *)
Lemma ObtainWithin_poll_error_dropped :
  ObtainWithin (lock_methods := failing_poll_lock) show_counting_lock 2 2500 counting_run =
    Some (Return (false, Some "Lock obtain time out: lock"),
          {| lock := {| self := 3; failureReason := None |};
             trace := [ObtainCalled false None; Slept 1000;
                       ObtainCalled false (Some "disk error"); Slept 1000;
                       ObtainCalled false (Some "disk error")] |}).
Proof. reflexivity. Qed.

(** Without a deadline the polls go on until the lock is free: here at the
    third attempt, after two sleeps. *)
Lemma ObtainWithin_forever_third_attempt fuel :
  (2 <= fuel)%nat ->
  ObtainWithin (lock_methods := counting_lock 3) show_counting_lock fuel
    LOCK_OBTAIN_WAIT_FOREVER counting_run =
    Some (Return (true, None),
          {| lock := {| self := 3; failureReason := Some "attempt 2" |};
             trace := [ObtainCalled false None; Slept 1000;
                       ObtainCalled false None; Slept 1000;
                       ObtainCalled true None] |}).
Proof.
  intros Hfuel. destruct fuel as [|[|fuel]]; try lia.
  rewrite ObtainWithin_unfold. cbn -[ObtainWithin_loop].
  rewrite loop_step by (left; reflexivity). cbn -[ObtainWithin_loop].
  rewrite loop_step by (left; reflexivity). cbn -[ObtainWithin_loop].
  apply loop_locked.
Qed.

Lemma ObtainWithin_2500_polls_three_times_witness :
  ObtainWithin (lock_methods := busy_lock) show_unit_lock 5 2500 fresh_run =
    Some (Return (false, Some "Lock obtain time out: lock: held by another process"),
          {| lock := {| self := tt; failureReason := Some "held by another process" |};
             trace := [ObtainCalled false None; Slept 1000;
                       ObtainCalled false None; Slept 1000;
                       ObtainCalled false None] |}).
Proof.
  assert (H1 : forall l : LockImpl unit, fst (Obtain (Lock := busy_lock) l) = (false, None))
    by (intros l; reflexivity).
  assert (H2 : (2 <= 5)%nat) by lia.
  exact (proj1 (ObtainWithin_2500_polls_three_times (lock_methods := busy_lock)
                  show_unit_lock 5 fresh_run H1 H2)).
Defined.

End LockExamples.

(* ===================================================================== *)
(** * More facts about package store *)
(* ===================================================================== *)

Section IOContextInvariant.

Ltac pairing :=
  unfold IO_CONTEXT_TYPE_MERGE, IO_CONTEXT_TYPE_READ, IO_CONTEXT_TYPE_FLUSH,
         IO_CONTEXT_TYPE_DEFAULT in *;
  repeat split; intros; try congruence; exfalso; lia.

(** X9.  Whatever the arguments, a context that a constructor returns is
    well paired: it carries a [MergeInfo] exactly when its kind is MERGE and
    a [FlushInfo] exactly when its kind is FLUSH. *)
Theorem constructors_pair_kind_and_info ctx : constructed ctx -> well_paired ctx.
Proof.
  unfold constructed, well_paired.
  intros [[fi H]|[[mi H]|[[kind H]|[ro H]]]].
  - destruct fi as [fi|]; [|discriminate].
    rewrite NewIOContextForFlush_some in H. inversion H; subst; clear H. simpl.
    pairing.
  - destruct mi as [mi|]; [|discriminate].
    rewrite NewIOContextForMerge_some in H. inversion H; subst; clear H. simpl.
    pairing.
  - unfold NewIOContextFromType in H.
    destruct (Z.eqb_spec kind IO_CONTEXT_TYPE_MERGE) as [|Hm]; [discriminate|].
    destruct (Z.eqb_spec kind IO_CONTEXT_TYPE_FLUSH) as [|Hf]; [discriminate|].
    simpl in H. inversion H; subst; clear H. simpl.
    pairing.
  - subst ctx. simpl. pairing.
Qed.

Lemma constructors_pair_kind_and_info_witness :
  constructed IO_CONTEXT_READONCE /\ well_paired IO_CONTEXT_READONCE.
Proof.
  assert (H : constructed IO_CONTEXT_READONCE).
  { right. right. right. exists true. reflexivity. }
  split; [exact H | exact (constructors_pair_kind_and_info _ H)].
Defined.

(** X10.  [NewIOContextFromType] does not check that its argument is one of
    the four kinds: it panics for MERGE and for FLUSH and for nothing else,
    and every other integer becomes the kind of a context without info and
    with [readOnce] off. *)
Theorem NewIOContextFromType_accepts kind :
  (panics (NewIOContextFromType kind) = true <->
   kind = IO_CONTEXT_TYPE_MERGE \/ kind = IO_CONTEXT_TYPE_FLUSH) /\
  (panics (NewIOContextFromType kind) = false ->
   NewIOContextFromType kind =
   Return {| context := kind; mergeInfo := None; flushInfo := None; readOnce := false |}).
Proof.
  unfold NewIOContextFromType.
  destruct (Z.eqb_spec kind IO_CONTEXT_TYPE_MERGE) as [Hm|Hm];
    [|destruct (Z.eqb_spec kind IO_CONTEXT_TYPE_FLUSH) as [Hf|Hf]]; simpl.
  - split; [tauto | discriminate].
  - split; [tauto | discriminate].
  - split; [|reflexivity].
    split; [discriminate | tauto].
Qed.

Lemma NewIOContextFromType_accepts_witness :
  panics (NewIOContextFromType 99) = false /\
  NewIOContextFromType 99 =
  Return {| context := 99; mergeInfo := None; flushInfo := None; readOnce := false |}.
Proof.
  assert (H : panics (NewIOContextFromType 99) = false) by reflexivity.
  split; [exact H | exact (proj2 (NewIOContextFromType_accepts 99) H)].
Defined.

End IOContextInvariant.

Section MoreLockFacts.

Context {Backend : Type} {lock_methods : Lock Backend}.
Context (show_lock : LockImpl Backend -> string).

Lemma poll_trace (r : Run Backend) :
  trace (snd (poll r)) =
  trace r ++ [Slept LOCK_POOL_INTERVAL;
              ObtainCalled (fst (fst (poll r))) (snd (fst (poll r)))].
Proof.
  unfold poll. rewrite call_Obtain_trace. cbn [time_Sleep trace].
  rewrite <- app_assoc. reflexivity.
Qed.

(** One turn of the loop, whatever the fuel. *)
Lemma loop_unfold fuel t maxSleepCount sleepCount locked err (r : Run Backend) :
  ObtainWithin_loop show_lock fuel t maxSleepCount sleepCount locked err r =
  if locked then Some (Return (true, err), r)
  else if negb (t =? LOCK_OBTAIN_WAIT_FOREVER) && (sleepCount >=? maxSleepCount)
  then Some (Return (false, Some (timeout_error show_lock (lock r))), r)
  else match fuel with
       | O => None
       | S fuel' =>
           ObtainWithin_loop show_lock fuel' t maxSleepCount (add64 sleepCount 1)
             (fst (fst (poll r))) (snd (fst (poll r))) (snd (poll r))
       end.
Proof.
  destruct locked; [destruct fuel; reflexivity|].
  destruct fuel; simpl;
    destruct (negb (t =? LOCK_OBTAIN_WAIT_FOREVER) && (sleepCount >=? maxSleepCount));
    try reflexivity.
  unfold poll.
  destruct (call_Obtain (time_Sleep LOCK_POOL_INTERVAL r)) as [[locked err'] r'].
  reflexivity.
Qed.

(** The lock comes free at poll [n + 1]: the loop returns it. *)
Lemma loop_obtains n : forall fuel t maxSleepCount sleepCount err (r : Run Backend),
  t = LOCK_OBTAIN_WAIT_FOREVER \/
  (0 <= sleepCount /\ sleepCount + Z.of_nat n < maxSleepCount /\ maxSleepCount <= MAX_INT64) ->
  (n < fuel)%nat ->
  never_locked n r = true ->
  fst (fst (poll (polls n r))) = true ->
  ObtainWithin_loop show_lock fuel t maxSleepCount sleepCount false err r =
  Some (Return (true, snd (fst (poll (polls n r)))), snd (poll (polls n r))).
Proof.
  induction n as [|n IH]; intros fuel t maxSleepCount sleepCount err r Hgo Hfuel Hnever Hfree;
    (destruct fuel as [|fuel]; [lia|]);
    (rewrite loop_step by (destruct Hgo as [Ht|Hs]; [left; exact Ht | right; lia])).
  - simpl in Hfree. rewrite Hfree. apply loop_locked.
  - simpl in Hnever. apply andb_true_iff in Hnever. destruct Hnever as [Hpoll Hrest].
    apply negb_true_iff in Hpoll. rewrite Hpoll.
    simpl polls in *. apply IH; try assumption; [|lia].
    destruct Hgo as [Ht|Hs]; [left; exact Ht | right].
    rewrite add64_exact by (unfold is_int64, MIN_INT64, MAX_INT64 in *; lia). lia.
Qed.

(** X11.  An error of the first attempt ends the call at once, for every
    timeout, valid or not: the result and the error of that attempt are
    returned, after one attempt and no sleep. *)
Theorem ObtainWithin_first_error fuel t (r : Run Backend) e :
  let first := call_Obtain (reset_failureReason r) in
  snd (fst first) = Some e ->
  ObtainWithin show_lock fuel t r = Some (Return (fst (fst first), Some e), snd first) /\
  trace (snd first) = trace r ++ [ObtainCalled (fst (fst first)) (Some e)].
Proof.
  intros first He. split.
  - rewrite ObtainWithin_unfold. cbv zeta. fold first. rewrite He.
    destruct (fst first) as [locked err]. simpl in He. subst err. reflexivity.
  - subst first. rewrite call_Obtain_trace. rewrite He. reflexivity.
Qed.

(** X12.  A lock that is free is obtained without waiting: when the first
    attempt returns [(true, nil)] and the timeout is valid, the call returns
    [(true, nil)] after that one attempt, with no fuel needed. *)
Theorem ObtainWithin_free_lock fuel t (r : Run Backend) :
  let first := call_Obtain (reset_failureReason r) in
  0 <= t \/ t = LOCK_OBTAIN_WAIT_FOREVER ->
  fst first = (true, None) ->
  ObtainWithin show_lock fuel t r = Some (Return (true, None), snd first) /\
  trace (snd first) = trace r ++ [ObtainCalled true None].
Proof.
  intros first Ht Hfirst. split.
  - rewrite ObtainWithin_unfold. cbv zeta. fold first. rewrite Hfirst. cbn [fst snd].
    replace ((t >=? 0) || (t =? LOCK_OBTAIN_WAIT_FOREVER)) with true.
    + apply loop_locked.
    + symmetry. apply orb_true_iff. destruct Ht as [Ht|Ht].
      * left. apply Z.geb_le. lia.
      * right. apply Z.eqb_eq, Ht.
  - subst first. rewrite call_Obtain_trace, Hfirst. reflexivity.
Qed.

(** X13.  A lock that comes free in time is obtained: when the first attempt
    and the next [n] polls fail without the first returning an error, poll
    [n + 1] succeeds, and the timeout is LOCK_OBTAIN_WAIT_FOREVER or allows
    more than [n] sleeps, the call returns [true] with what that poll
    returned, [n + 1] seconds of sleep later. *)
Theorem ObtainWithin_obtains_later fuel t n (r : Run Backend) :
  let first := call_Obtain (reset_failureReason r) in
  let before := polls n (snd first) in
  t = LOCK_OBTAIN_WAIT_FOREVER \/
  (0 <= t <= MAX_INT64 /\ Z.of_nat n < Z.quot t LOCK_POOL_INTERVAL) ->
  (n < fuel)%nat ->
  fst first = (false, None) ->
  never_locked n (snd first) = true ->
  fst (fst (poll before)) = true ->
  ObtainWithin show_lock fuel t r =
  Some (Return (true, snd (fst (poll before))), snd (poll before)).
Proof.
  intros first before Ht Hfuel Hfirst Hnever Hfree.
  rewrite ObtainWithin_unfold. cbv zeta. fold first. rewrite Hfirst. cbn [fst snd].
  replace ((t >=? 0) || (t =? LOCK_OBTAIN_WAIT_FOREVER)) with true.
  - apply loop_obtains; try assumption.
    destruct Ht as [Ht|[Ht Hn]]; [left; exact Ht | right].
    assert (Hq : Z.quot t LOCK_POOL_INTERVAL <= t).
    { unfold LOCK_POOL_INTERVAL. rewrite Z.quot_div_nonneg by lia.
      Z.to_euclidean_division_equations. lia. }
    lia.
  - symmetry. apply orb_true_iff. destruct Ht as [Ht|[Ht _]].
    + right. apply Z.eqb_eq, Ht.
    + left. apply Z.geb_le. lia.
Qed.

(** Without a deadline the loop only stops for a lock that is held. *)
Lemma loop_forever_spins fuel : forall maxSleepCount sleepCount err (r : Run Backend),
  (forall l, fst (fst (Obtain l)) = false) ->
  ObtainWithin_loop show_lock fuel LOCK_OBTAIN_WAIT_FOREVER maxSleepCount sleepCount
    false err r = None.
Proof.
  induction fuel as [|fuel IH]; intros maxSleepCount sleepCount err r Hbusy.
  - reflexivity.
  - rewrite loop_step by (left; reflexivity).
    assert (Hpoll : fst (fst (poll r)) = false).
    { unfold poll, call_Obtain.
      specialize (Hbusy (lock (time_Sleep LOCK_POOL_INTERVAL r))).
      destruct (Obtain (lock (time_Sleep LOCK_POOL_INTERVAL r))) as [res l]. exact Hbusy. }
    rewrite Hpoll. apply IH, Hbusy.
Qed.

(** X14.  With LOCK_OBTAIN_WAIT_FOREVER the call does not give up: against a
    lock that no attempt obtains and whose first attempt returns no error,
    no amount of fuel makes it return. *)
Theorem ObtainWithin_forever_does_not_return fuel (r : Run Backend) :
  (forall l, fst (fst (Obtain l)) = false) ->
  snd (fst (call_Obtain (reset_failureReason r))) = None ->
  ObtainWithin show_lock fuel LOCK_OBTAIN_WAIT_FOREVER r = None.
Proof.
  intros Hbusy Hfirst.
  rewrite ObtainWithin_unfold. cbv zeta. rewrite Hfirst.
  change ((LOCK_OBTAIN_WAIT_FOREVER >=? 0) ||
          (LOCK_OBTAIN_WAIT_FOREVER =? LOCK_OBTAIN_WAIT_FOREVER)) with true. cbv iota.
  assert (Hlocked : fst (fst (call_Obtain (reset_failureReason r))) = false).
  { unfold call_Obtain. specialize (Hbusy (lock (reset_failureReason r))).
    destruct (Obtain (lock (reset_failureReason r))) as [res l]. exact Hbusy. }
  rewrite Hlocked. apply loop_forever_spins, Hbusy.
Qed.

(** The loop never returns [false] without an error. *)
Lemma loop_failure_has_error fuel :
  forall t maxSleepCount sleepCount locked err (r r' : Run Backend) err',
  ObtainWithin_loop show_lock fuel t maxSleepCount sleepCount locked err r =
    Some (Return (false, err'), r') ->
  err' = Some (timeout_error show_lock (lock r')).
Proof.
  induction fuel as [|fuel IH]; intros t maxSleepCount sleepCount locked err r r' err';
    rewrite loop_unfold; destruct locked; try discriminate;
    destruct (negb (t =? LOCK_OBTAIN_WAIT_FOREVER) && (sleepCount >=? maxSleepCount));
    try discriminate; intros H.
  - inversion H; subst; reflexivity.
  - inversion H; subst; reflexivity.
  - apply IH in H. exact H.
Qed.

(** X15.  A call never returns [false] with a nil error: when the lock was
    not obtained, the caller gets either the error of the first attempt or
    the timeout error. *)
Theorem ObtainWithin_failure_has_error fuel t (r r' : Run Backend) err :
  ObtainWithin show_lock fuel t r = Some (Return (false, err), r') ->
  err <> None /\
  (err = snd (fst (call_Obtain (reset_failureReason r))) \/
   err = Some (timeout_error show_lock (lock r'))).
Proof.
  rewrite ObtainWithin_unfold. cbv zeta.
  destruct (snd (fst (call_Obtain (reset_failureReason r)))) as [e|] eqn:He.
  - intros H. inversion H as [[H1 H2]].
    destruct (fst (call_Obtain (reset_failureReason r))) as [locked err0].
    simpl in He. subst err0. inversion H1; subst.
    split; [discriminate | left; reflexivity].
  - destruct ((t >=? 0) || (t =? LOCK_OBTAIN_WAIT_FOREVER)); [|discriminate].
    intros H. apply loop_failure_has_error in H. subst err.
    split; [discriminate | right; reflexivity].
Qed.

(** What the loop adds to the trace: sleeps of the poll interval, each
    followed by one attempt, and with a deadline no more of them than
    [maxSleepCount] allows. *)
Lemma loop_trace fuel :
  forall t maxSleepCount sleepCount locked err (r : Run Backend) res r',
  ObtainWithin_loop show_lock fuel t maxSleepCount sleepCount locked err r = Some (res, r') ->
  exists evs,
    trace r' = trace r ++ evs /\
    polled evs = true /\
    total_sleep evs = LOCK_POOL_INTERVAL * attempts evs /\
    0 <= attempts evs /\
    (t <> LOCK_OBTAIN_WAIT_FOREVER -> 0 <= sleepCount <= maxSleepCount ->
     maxSleepCount <= MAX_INT64 -> sleepCount + attempts evs <= maxSleepCount).
Proof.
  induction fuel as [|fuel IH]; intros t maxSleepCount sleepCount locked err r res r';
    rewrite loop_unfold; destruct locked;
    try (intros H; inversion H; subst; exists []; rewrite app_nil_r;
         repeat split; try reflexivity; intros; cbn; lia).
  - destruct (negb (t =? LOCK_OBTAIN_WAIT_FOREVER) && (sleepCount >=? maxSleepCount));
      [|discriminate].
    intros H; inversion H; subst; exists []; rewrite app_nil_r;
      repeat split; try reflexivity; intros; cbn; lia.
  - destruct (negb (t =? LOCK_OBTAIN_WAIT_FOREVER) && (sleepCount >=? maxSleepCount)) eqn:Hcond.
    + intros H; inversion H; subst; exists []; rewrite app_nil_r;
        repeat split; try reflexivity; intros; cbn; lia.
    + intros H. apply IH in H. destruct H as [evs [Htr [Hpolled [Hsl [Hnn Hbound]]]]].
      exists ([Slept LOCK_POOL_INTERVAL;
               ObtainCalled (fst (fst (poll r))) (snd (fst (poll r)))] ++ evs).
      rewrite Htr, poll_trace, <- app_assoc.
      split; [reflexivity|].
      split; [cbn [app polled]; rewrite Z.eqb_refl; exact Hpolled|].
      assert (Hatt : attempts ([Slept LOCK_POOL_INTERVAL;
                       ObtainCalled (fst (fst (poll r))) (snd (fst (poll r)))] ++ evs)
                     = 1 + attempts evs).
      { unfold attempts. cbn [app filter is_ObtainCalled]. rewrite length_cons. lia. }
      rewrite Hatt. cbn [app total_sleep]. rewrite Hsl.
      split; [lia|]. split; [lia|].
      intros Ht Hsc Hmax.
      apply andb_false_iff in Hcond. destruct Hcond as [Hcond|Hcond].
      * apply negb_false_iff, Z.eqb_eq in Hcond. contradiction.
      * destruct (Z.geb_spec sleepCount maxSleepCount) as [|Hlt]; [discriminate|].
        rewrite add64_exact in Hbound
          by (unfold is_int64, MIN_INT64, MAX_INT64 in *; lia).
        specialize (Hbound Ht). lia.
Qed.

(** The shape is strict: an attempt without a sleep before it, a sleep of
    another length, or a sleep at the end is not of it. *)
Lemma attempt_then_polled_strict :
  attempt_then_polled [ObtainCalled false None; ObtainCalled false None;
                       Slept 1000; ObtainCalled false None; Slept 1000] = false /\
  attempt_then_polled [Slept 2000; ObtainCalled false None;
                       ObtainCalled false None; ObtainCalled false None] = false /\
  attempt_then_polled [ObtainCalled false None; Slept 2000; ObtainCalled false None] = false /\
  attempt_then_polled [ObtainCalled false None; Slept 1000; ObtainCalled true None] = true.
Proof. repeat split. Qed.

(** X16.  However the lock behaves, what a call that ends has done is one
    attempt and then, as often as it went round, a sleep of
    LOCK_POOL_INTERVAL milliseconds followed by one more attempt, in this
    order and with nothing else in between; with a timeout [t >= 0] the time
    slept is at most [t], and the attempts are at most [t / 1000 + 1]. *)
Theorem ObtainWithin_sleeps_within_timeout fuel t (r : Run Backend) res r' :
  ObtainWithin show_lock fuel t r = Some (res, r') ->
  exists evs,
    trace r' = trace r ++ evs /\
    attempt_then_polled evs = true /\
    total_sleep evs = LOCK_POOL_INTERVAL * (attempts evs - 1) /\
    1 <= attempts evs /\
    (0 <= t <= MAX_INT64 ->
     total_sleep evs <= t /\ attempts evs <= Z.quot t LOCK_POOL_INTERVAL + 1).
Proof.
  rewrite ObtainWithin_unfold. cbv zeta.
  pose proof (call_Obtain_trace (reset_failureReason r)) as Hfirst.
  cbn [reset_failureReason trace] in Hfirst.
  set (first := call_Obtain (reset_failureReason r)) in *.
  assert (Hq : 0 <= t <= MAX_INT64 ->
               0 <= Z.quot t LOCK_POOL_INTERVAL /\
               LOCK_POOL_INTERVAL * Z.quot t LOCK_POOL_INTERVAL <= t).
  { intros Ht. unfold LOCK_POOL_INTERVAL. rewrite Z.quot_div_nonneg by lia.
    Z.to_euclidean_division_equations. lia. }
  assert (Hone : forall ok e, attempts [ObtainCalled ok e] = 1) by reflexivity.
  destruct (snd (fst first)) as [e|] eqn:He.
  - intros H. inversion H; subst.
    eexists. split; [exact Hfirst|]. split; [reflexivity|].
    rewrite Hone. cbn [total_sleep].
    unfold LOCK_POOL_INTERVAL in *. repeat split; try lia.
    all: intros Ht; specialize (Hq Ht); lia.
  - destruct ((t >=? 0) || (t =? LOCK_OBTAIN_WAIT_FOREVER)).
    + intros H. apply loop_trace in H.
      destruct H as [evs [Htr [Hpolled [Hsl [Hnn Hbound]]]]].
      exists (ObtainCalled (fst (fst first)) None :: evs).
      rewrite Htr, Hfirst, <- app_assoc.
      split; [reflexivity|]. split; [exact Hpolled|].
      assert (Hatt : attempts (ObtainCalled (fst (fst first)) None :: evs) = 1 + attempts evs).
      { unfold attempts. cbn [filter is_ObtainCalled]. rewrite length_cons. lia. }
      rewrite Hatt. cbn [total_sleep]. rewrite Hsl.
      split; [f_equal; lia|]. split; [lia|].
      intros Ht. specialize (Hq Ht).
      assert (Hb : 0 + attempts evs <= Z.quot t LOCK_POOL_INTERVAL).
      { apply Hbound; unfold LOCK_OBTAIN_WAIT_FOREVER, LOCK_POOL_INTERVAL, MAX_INT64 in *; lia. }
      unfold LOCK_POOL_INTERVAL in *. lia.
    + intros H. inversion H; subst.
      eexists. split; [exact Hfirst|]. split; [reflexivity|].
      rewrite Hone. cbn [total_sleep].
      unfold LOCK_POOL_INTERVAL in *. repeat split; try lia.
      all: intros Ht; specialize (Hq Ht); lia.
Qed.

End MoreLockFacts.

Section DirectoryFacts.

Context {Ext IndexInput LockRef : Type}.
Context {base_methods : IndexInputMethods Ext IndexInput}.
Context {template : BufferedIndexInputTemplate}.

(** C10.  [ClearLock] on a directory whose lock factory is nil returns the
    nil error and leaves everything as it was, for every lock name. *)
Theorem ClearLock_nil_lockFactory (d : DirectoryImpl Ext IndexInput LockRef) (name : string) (w : World Ext) :
  lockFactory d = None ->
  ClearLock d name w = (Return None, w).
Proof. intros Hnil. unfold ClearLock. rewrite Hnil. reflexivity. Qed.

(** A directory just made has no lock factory. *)
Lemma NewDirectoryImpl_lockFactory (s : directoryService Ext IndexInput) :
  lockFactory (LockRef := LockRef) (NewDirectoryImpl s) = None /\
  IsOpen (LockRef := LockRef) (NewDirectoryImpl s) = true.
Proof. split; reflexivity. Qed.

(** With a factory, [ClearLock] is the factory's [Clear]. *)
Lemma ClearLock_delegates (d : DirectoryImpl Ext IndexInput LockRef) f (name : string) (w : World Ext) :
  lockFactory d = Some f -> ClearLock d name w = Clear f name w.
Proof. intros Hf. unfold ClearLock. rewrite Hf. reflexivity. Qed.

Lemma EnsureOpen_closed (d : DirectoryImpl Ext IndexInput LockRef) (w : World Ext) :
  IsOpen d = false ->
  EnsureOpen d w = (Panic "this Directory is closed", closed_log w).
Proof. intros Hc. unfold EnsureOpen. rewrite Hc. reflexivity. Qed.

Lemma EnsureOpen_open (d : DirectoryImpl Ext IndexInput LockRef) (w : World Ext) :
  IsOpen d = true -> EnsureOpen d w = (Return tt, w).
Proof. intros Ho. unfold EnsureOpen. rewrite Ho. reflexivity. Qed.

Lemma CreateSlicer_panic (d : DirectoryImpl Ext IndexInput LockRef) name context (w : World Ext) :
  CreateSlicer d name context w = (Panic "Should be overrided, I guess", w).
Proof. reflexivity. Qed.

(** [SetLockFactory] carries the open flag through and does not look at
    it. *)
Lemma SetLockFactory_ignores_IsOpen (open : bool) (d : DirectoryImpl Ext IndexInput LockRef)
    (f : option (LockFactory Ext LockRef)) (w : World Ext) :
  SetLockFactory (with_IsOpen open d) f w =
  match SetLockFactory d f w with
  | (Return d', w') => (Return (with_IsOpen open d'), w')
  | (Panic msg, w') => (Panic msg, w')
  end.
Proof.
  unfold SetLockFactory. destruct f as [f|]; [|reflexivity].
  cbn. unfold DirectoryImpl_String. cbn.
  destruct (SetLockPrefix f _ w) as [[[]|msg] w']; reflexivity.
Qed.

(** C9 (amended).  [EnsureOpen] panics, after logging, whenever the open flag
    is false, so that an operation that runs the check first is not run and
    returns nothing on a closed directory; on an open directory the check
    returns and changes nothing.  The operations that [DirectoryImpl]
    implements for locks do not run the check: what [MakeLock], [ClearLock],
    [LockID] and [SetLockFactory] do does not depend on the open flag. *)
Theorem EnsureOpen_guards (d : DirectoryImpl Ext IndexInput LockRef) (w : World Ext) :
  (IsOpen d = false ->
     EnsureOpen d w = (Panic "this Directory is closed", closed_log w) /\
     (forall (A : Type) (operation : M (World Ext) A),
        (EnsureOpen d ;; operation) w = (Panic "this Directory is closed", closed_log w))) /\
  (IsOpen d = true ->
     EnsureOpen d w = (Return tt, w) /\
     (forall (A : Type) (operation : M (World Ext) A),
        (EnsureOpen d ;; operation) w = operation w)) /\
  (forall open name,
     MakeLock (with_IsOpen open d) name w = MakeLock d name w /\
     ClearLock (with_IsOpen open d) name w = ClearLock d name w /\
     LockID (with_IsOpen open d) w = LockID d w) /\
  (forall open f,
     SetLockFactory (with_IsOpen open d) f w =
     match SetLockFactory d f w with
     | (Return d', w') => (Return (with_IsOpen open d'), w')
     | (Panic msg, w') => (Panic msg, w')
     end).
Proof.
  split; [|split; [|split]].
  - intros Hc. split.
    + apply EnsureOpen_closed, Hc.
    + intros A operation. simpl. rewrite (EnsureOpen_closed d w Hc). reflexivity.
  - intros Ho. split.
    + apply EnsureOpen_open, Ho.
    + intros A operation. simpl. rewrite (EnsureOpen_open d w Ho). reflexivity.
  - intros open name. repeat split.
  - intros open f. apply SetLockFactory_ignores_IsOpen.
Qed.

(** C8 (amended).  [CreateSlicer] panics at once, for every name and
    context, whatever [OpenInput] would do; a [simpleIndexInputSlicer] over a
    reader gives that same reader as its full slice, and its [openSlice]
    makes a [SlicedIndexInput] on that reader with the window that starts at
    [offset] and is [length] bytes long. *)
Theorem CreateSlicer_panics_slicer_wraps :
  (forall (d : DirectoryImpl Ext IndexInput LockRef) name context (w : World Ext),
     CreateSlicer d name context w = (Panic "Should be overrided, I guess", w)) /\
  (forall base : IndexInput, openFullSlice {| slicer_base := base |} = base) /\
  (forall (base : IndexInput) desc offset length (w : World Ext),
     exists in_,
       openSlice {| slicer_base := base |} desc offset length w = (Return in_, w) /\
       Store.base in_ = base /\
       fileOffset in_ = offset /\
       Store.length in_ = length).
Proof.
  split; [|split].
  - intros. apply CreateSlicer_panic.
  - reflexivity.
  - intros base0 desc offset len w. eexists. split; [reflexivity|].
    repeat split.
Qed.


(** As long as the sum fits in [int64] the comparison is the one of the
    integers. *)
Lemma readInternal_sum_exact (in_ : SlicedIndexInput IndexInput) (buf : list Z) :
  let start := FilePointer (super in_) in
  let size := Z.of_nat (List.length buf) in
  is_int64 (start + size) ->
  (add64 start size > Store.length in_ <-> start + size > Store.length in_).
Proof. intros start size Hfit. rewrite add64_exact by assumption. reflexivity. Qed.

End DirectoryFacts.

Section FSLockFactoryFacts.

(** X17.  The lock directory of a new factory can be set once: a second
    [setLockDir] panics, unless the first one set the empty string, which
    leaves the factory as if nothing had been set. *)
Theorem setLockDir_twice (dir1 dir2 : string) :
  (f <- setLockDir newFSLockFactory dir1 ;; setLockDir f dir2) =
  if String.eqb dir1 "" then Return {| impl := impl newFSLockFactory; lockDir := dir2 |}
  else Panic "You can set the lock directory for this factory only once.".
Proof.
  unfold setLockDir at 1. simpl.
  unfold setLockDir. simpl. destruct (String.eqb dir1 ""); reflexivity.
Qed.

(** Once the directory is a string that is not empty it stays. *)
Lemma setLockDir_set (f : FSLockFactory) (dir : string) :
  lockDir f <> "" ->
  setLockDir f dir = Panic "You can set the lock directory for this factory only once.".
Proof.
  intros Hset. unfold setLockDir.
  destruct (String.eqb_spec (lockDir f) ""); [contradiction | reflexivity].
Qed.

End FSLockFactoryFacts.

Section MoreDirectoryFacts.

Context {Ext IndexInput LockRef : Type}.
Context {base_methods : IndexInputMethods Ext IndexInput}.
Context {template : BufferedIndexInputTemplate}.

(** X18.  [SetLockFactory] with a nil factory panics and changes nothing.
    With a factory whose [SetLockPrefix] returns, it installs the factory and
    nothing else in the directory, and the prefix the factory is given is the
    lock ID of the directory with the new factory already in place; from then
    on [ClearLock] is the [Clear] of that factory. *)
Theorem SetLockFactory_installs (d : DirectoryImpl Ext IndexInput LockRef)
    (f : LockFactory Ext LockRef) (w w' : World Ext) :
  let d' := {| service := service d; IsOpen := IsOpen d; lockFactory := Some f |} in
  SetLockPrefix f (DirectoryImpl_String d' w) w = (Return tt, w') ->
  SetLockFactory d None w = (Panic "assert fail", w) /\
  SetLockFactory d (Some f) w = (Return d', w') /\
  (forall name w0, ClearLock d' name w0 = Clear f name w0).
Proof.
  intros d' Hset. split; [reflexivity|]. split; [|reflexivity].
  unfold SetLockFactory. simpl. fold d'. rewrite Hset. reflexivity.
Qed.

(** X19.  The window of a slice is laid over the base reader: if seeking
    the base to a position and reading there gives the bytes of the file at
    that position, then a read through the slice that stays inside the
    window gives the bytes of the file at [fileOffset] plus the cursor. *)
Theorem readInternal_reads_window (file : Z -> nat -> list Z) (file_length : Z)
    (in_ : SlicedIndexInput IndexInput) (buf : list Z) (w : World Ext) :
  let start := FilePointer (super in_) in
  let size := Z.of_nat (List.length buf) in
  (forall pos buf' w0,
     0 <= pos -> pos + Z.of_nat (List.length buf') <= file_length ->
     exists w1, (Seek (base in_) pos ;; ReadBytesBuffered (base in_) buf' false) w0 =
                (Return (file pos (List.length buf'), None), w1)) ->
  file_length <= MAX_INT64 ->
  0 <= fileOffset in_ ->
  fileOffset in_ + Store.length in_ <= file_length ->
  0 <= start ->
  start + size <= Store.length in_ ->
  exists w1, readInternal in_ buf w =
             (Return (file (fileOffset in_ + start) (List.length buf), None), w1).
Proof.
  intros start size Hbase Hmax Hoff Hwin Hstart Hfit.
  unfold readInternal. fold start. fold size.
  assert (Hsize : 0 <= size) by (subst size; lia).
  rewrite (add64_exact start size)
    by (unfold is_int64, MIN_INT64, MAX_INT64 in *; lia).
  rewrite (add64_exact (fileOffset in_) start)
    by (unfold is_int64, MIN_INT64, MAX_INT64 in *; lia).
  destruct (Z.gtb_spec (start + size) (Store.length in_)); [lia|].
  apply Hbase; fold size; lia.
Qed.

(** X20.  A slice does not own its reader: closing a slice that a slicer
    opened is closing the reader of the slicer, the same as closing the
    slicer itself. *)
Theorem openSlice_Close_closes_base (is_ : simpleIndexInputSlicer IndexInput)
    (desc : string) (offset length : Z) (w : World Ext) :
  (in_ <- openSlice is_ desc offset length ;; SlicedIndexInput_Close in_) w =
    simpleIndexInputSlicer_Close is_ w /\
  (in_ <- openSlice is_ desc offset length ;; SlicedIndexInput_Close in_) w =
    IndexInput_Close (openFullSlice is_) w.
Proof. split; reflexivity. Qed.

(** X21.  [Clone] clones the base reader and keeps the window: the clone has
    the same [fileOffset] and [length], and the original is not changed.
    The line after the clone is logged by a deferred call, so it is written
    also when cloning the base panics, with [<nil>] for the result. *)
Theorem Clone_keeps_window (in_ : SlicedIndexInput IndexInput) (w : World Ext) :
  (forall base' w1,
     IndexInput_Clone (base in_) (before_clone in_ w) = (Return base', w1) ->
     let ans := {| super := BufferedIndexInput_Clone (super in_); base := base';
                   fileOffset := fileOffset in_; Store.length := Store.length in_ |} in
     Clone in_ w =
     (Return ans,
      {| stdlog := stdlog w1 ++ [("DEBUG after clone: " ++ show_SlicedIndexInput ans)%string];
         ext := ext w1 |})) /\
  (forall msg w1,
     IndexInput_Clone (base in_) (before_clone in_ w) = (Panic msg, w1) ->
     Clone in_ w =
     (Panic msg, {| stdlog := stdlog w1 ++ ["DEBUG after clone: <nil>"]; ext := ext w1 |})).
Proof.
  split.
  - intros base' w1 Hclone ans. unfold before_clone in Hclone.
    unfold Clone, deferring, log_Print. cbn in *. rewrite Hclone. reflexivity.
  - intros msg w1 Hclone. unfold before_clone in Hclone.
    unfold Clone, deferring, log_Print. cbn in *. rewrite Hclone. reflexivity.
Qed.

End MoreDirectoryFacts.

Section FSDirectoryFacts.

Context {IndexInput LockRef : Type}.

(** X22.  A directory that is given an [FSLockFactory] hands its lock ID to
    the factory as the lock prefix: afterwards the prefix of the factory and
    the lock ID of the directory are both
    ["Directory lockFactory=FSLockFactory@"] followed by the lock directory,
    the lock directory is as before, and both [MakeLock] and [ClearLock]
    panic, because the factory's [Make] and [Clear] do. *)
Theorem SetLockFactory_FSLockFactory
    (d : DirectoryImpl FSLockFactory IndexInput LockRef) (w : World FSLockFactory) :
  let id := ("Directory lockFactory=FSLockFactory@" ++ lockDir (ext w))%string in
  exists d' w',
    SetLockFactory d (Some FSLockFactory_LockFactory) w = (Return d', w') /\
    IsOpen d' = IsOpen d /\
    LockPrefix (FSLockFactory_LockFactory (LockRef := LockRef)) w' = (Return id, w') /\
    LockID d' w' = (Return id, w') /\
    getLockDir (ext w') = getLockDir (ext w) /\
    stdlog w' = stdlog w /\
    (forall name, MakeLock d' name w' = (Panic "invalid", w')) /\
    (forall name, ClearLock d' name w' = (Panic "invalid", w')).
Proof.
  intros id.
  exists {| service := service d; IsOpen := IsOpen d;
            lockFactory := Some FSLockFactory_LockFactory |}.
  exists {| stdlog := stdlog w;
            ext := {| impl := {| lockPrefix := id |}; lockDir := lockDir (ext w) |} |}.
  repeat split.
Qed.

End FSDirectoryFacts.

Section DirectoryExamples.

Lemma ClearLock_nil_lockFactory_witness :
  lockFactory ram_directory = None /\
  ClearLock ram_directory "write.lock" ram_world = (Return None, ram_world).
Proof.
  assert (H : lockFactory ram_directory = None) by reflexivity.
  split; [exact H | exact (ClearLock_nil_lockFactory ram_directory "write.lock" ram_world H)].
Defined.

Lemma EnsureOpen_guards_witness :
  IsOpen closed_directory = false /\
  IsOpen ram_directory = true /\
  EnsureOpen closed_directory ram_world =
    (Panic "this Directory is closed",
     {| stdlog := ["This Directory is closed."]; ext := 0 |}) /\
  EnsureOpen ram_directory ram_world = (Return tt, ram_world).
Proof.
  assert (Hc : IsOpen closed_directory = false) by reflexivity.
  assert (Ho : IsOpen ram_directory = true) by reflexivity.
  split; [exact Hc|]. split; [exact Ho|]. split.
  - exact (proj1 (proj1 (EnsureOpen_guards closed_directory ram_world) Hc)).
  - exact (proj1 (proj1 (proj2 (EnsureOpen_guards ram_directory ram_world)) Ho)).
Defined.

(** C9 (counterexample).  On directories whose open flag is false,
    [ClearLock], [LockID] and [SetLockFactory] return as they do on open
    ones: nothing panics. *)
Lemma closed_directory_lock_operations_return :
  IsOpen closed_directory = false /\
  IsOpen closed_fs_directory = false /\
  ClearLock closed_directory "write.lock" ram_world = (Return None, ram_world) /\
  LockID closed_directory ram_world = (Return "Directory lockFactory=<nil>", ram_world) /\
  SetLockFactory closed_fs_directory (Some FSLockFactory_LockFactory) fs_world =
    (Return {| service := fs_service; IsOpen := false;
               lockFactory := Some FSLockFactory_LockFactory |},
     {| stdlog := [];
        ext := {| impl := {| lockPrefix := "Directory lockFactory=FSLockFactory@/index" |};
                  lockDir := "/index" |} |}).
Proof. repeat split. Qed.

(** C8 (counterexample).  [OpenInput] of the directory [ram_directory]
    succeeds, and of [failing_service] fails with an error; in both cases
    [CreateSlicer] neither returns a slicer nor returns the error: it
    panics. *)
Lemma CreateSlicer_returns_no_slicer :
  OpenInput (service ram_directory) "_0.cfs" IO_CONTEXT_READ ram_world =
    (Return (tt, None), ram_world) /\
  CreateSlicer ram_directory "_0.cfs" IO_CONTEXT_READ ram_world =
    (Panic "Should be overrided, I guess", ram_world) /\
  (forall res w, CreateSlicer ram_directory "_0.cfs" IO_CONTEXT_READ ram_world
                 <> (Return res, w)) /\
  OpenInput failing_service "_0.cfs" IO_CONTEXT_READ ram_world =
    (Return (tt, Some "no such file"), ram_world) /\
  CreateSlicer (LockRef := unit) (NewDirectoryImpl failing_service)
    "_0.cfs" IO_CONTEXT_READ ram_world
    <> (Return (None, Some "no such file"), ram_world).
Proof.
  split; [reflexivity|]. split; [reflexivity|]. split; [intros res w; discriminate|].
  split; [reflexivity | discriminate].
Qed.


End DirectoryExamples.

Section MoreLockExamples.

Lemma ObtainWithin_first_error_witness :
  ObtainWithin (lock_methods := broken_lock) show_unit_lock 0 2500 fresh_run =
    Some (Return (false, Some "lock file unreadable"),
          {| lock := {| self := tt; failureReason := None |};
             trace := [ObtainCalled false (Some "lock file unreadable")] |}).
Proof.
  exact (proj1 (ObtainWithin_first_error (lock_methods := broken_lock)
                  show_unit_lock 0 2500 fresh_run "lock file unreadable" eq_refl)).
Defined.

Lemma ObtainWithin_free_lock_witness :
  (0 <= 0 \/ 0 = LOCK_OBTAIN_WAIT_FOREVER) /\
  ObtainWithin (lock_methods := counting_lock 1) show_counting_lock 0 0 counting_run =
    Some (Return (true, None),
          {| lock := {| self := 1; failureReason := None |};
             trace := [ObtainCalled true None] |}).
Proof.
  assert (H : 0 <= 0 \/ 0 = LOCK_OBTAIN_WAIT_FOREVER) by (left; lia).
  split; [exact H|].
  exact (proj1 (ObtainWithin_free_lock (lock_methods := counting_lock 1)
                  show_counting_lock 0 0 counting_run H eq_refl)).
Defined.

(** The lock comes free at the third attempt, which a timeout of 2500 ms
    still reaches. *)
Lemma ObtainWithin_obtains_later_witness :
  ObtainWithin (lock_methods := counting_lock 3) show_counting_lock 2 2500 counting_run =
    Some (Return (true, None),
          {| lock := {| self := 3; failureReason := Some "attempt 2" |};
             trace := [ObtainCalled false None; Slept 1000;
                       ObtainCalled false None; Slept 1000;
                       ObtainCalled true None] |}).
Proof.
  assert (Ht : 2500 = LOCK_OBTAIN_WAIT_FOREVER \/
               (0 <= 2500 <= MAX_INT64 /\ Z.of_nat 1 < Z.quot 2500 LOCK_POOL_INTERVAL)).
  { right. split; [unfold MAX_INT64; lia | reflexivity]. }
  exact (ObtainWithin_obtains_later (lock_methods := counting_lock 3)
           show_counting_lock 2 2500 1 counting_run Ht (le_n 2) eq_refl eq_refl eq_refl).
Defined.

Lemma ObtainWithin_forever_does_not_return_witness :
  ObtainWithin (lock_methods := busy_lock) show_unit_lock 100
    LOCK_OBTAIN_WAIT_FOREVER fresh_run = None.
Proof.
  exact (ObtainWithin_forever_does_not_return (lock_methods := busy_lock)
           show_unit_lock 100 fresh_run (fun l => eq_refl) eq_refl).
Defined.

Lemma ObtainWithin_failure_has_error_witness :
  Some "Lock obtain time out: lock: attempt 3" <> None /\
  (Some "Lock obtain time out: lock: attempt 3" = None \/
   Some "Lock obtain time out: lock: attempt 3" =
   Some (timeout_error show_counting_lock {| self := 3; failureReason := Some "attempt 3" |})).
Proof.
  exact (ObtainWithin_failure_has_error (lock_methods := counting_lock 0)
           show_counting_lock 2 2500 counting_run
           {| lock := {| self := 3; failureReason := Some "attempt 3" |};
              trace := [ObtainCalled false None; Slept 1000;
                        ObtainCalled false None; Slept 1000;
                        ObtainCalled false None] |}
           (Some "Lock obtain time out: lock: attempt 3") eq_refl).
Defined.

Lemma ObtainWithin_sleeps_within_timeout_witness :
  exists evs,
    [ObtainCalled false None; Slept 1000; ObtainCalled false None; Slept 1000;
     ObtainCalled false None] = [] ++ evs /\
    attempt_then_polled evs = true /\
    total_sleep evs = LOCK_POOL_INTERVAL * (attempts evs - 1) /\
    1 <= attempts evs /\
    (0 <= 2500 <= MAX_INT64 ->
     total_sleep evs <= 2500 /\ attempts evs <= Z.quot 2500 LOCK_POOL_INTERVAL + 1).
Proof.
  exact (ObtainWithin_sleeps_within_timeout (lock_methods := counting_lock 0)
           show_counting_lock 2 2500 counting_run
           (Return (false, Some "Lock obtain time out: lock: attempt 3"))
           {| lock := {| self := 3; failureReason := Some "attempt 3" |};
              trace := [ObtainCalled false None; Slept 1000;
                        ObtainCalled false None; Slept 1000;
                        ObtainCalled false None] |}
           eq_refl).
Defined.

End MoreLockExamples.

Section MoreDirectoryExamples.

Lemma SetLockFactory_installs_witness :
  SetLockFactory fs_directory (Some FSLockFactory_LockFactory) fs_world =
    (Return {| service := fs_service; IsOpen := true;
               lockFactory := Some FSLockFactory_LockFactory |},
     {| stdlog := [];
        ext := {| impl := {| lockPrefix := "Directory lockFactory=FSLockFactory@/index" |};
                  lockDir := "/index" |} |}).
Proof.
  exact (proj1 (proj2 (SetLockFactory_installs fs_directory FSLockFactory_LockFactory
                         fs_world _ eq_refl))).
Defined.

Lemma ram_reader_reads_file (pos : Z) (buf : list Z) (w : World Z) :
  0 <= pos -> pos + Z.of_nat (List.length buf) <= 100 ->
  exists w1, (Seek tt pos ;; ReadBytesBuffered tt buf false) w =
             (Return (file_content pos (List.length buf), None), w1).
Proof.
  intros Hpos Hfit. eexists. simpl. unfold ram_ReadBytesBuffered. simpl.
  destruct (Z.ltb_spec pos 0); [lia|].
  destruct (Z.gtb_spec (pos + Z.of_nat (List.length buf)) 100); [lia|].
  reflexivity.
Qed.

(** Ten bytes read through the slice [[20, 50)] with the cursor at 5 are the
    bytes 25..34 of the file. *)
Lemma readInternal_reads_window_witness :
  exists w1, readInternal (ram_slice 5) (repeat 0 10) ram_world =
             (Return ([25; 26; 27; 28; 29; 30; 31; 32; 33; 34], None), w1).
Proof.
  assert (H1 : 100 <= MAX_INT64) by (unfold MAX_INT64; lia).
  assert (H2 : 0 <= 20) by lia.
  assert (H3 : 20 + 30 <= 100) by lia.
  assert (H4 : 0 <= 5) by lia.
  assert (H5 : 5 + 10 <= 30) by lia.
  exact (readInternal_reads_window file_content 100 (ram_slice 5) (repeat 0 10) ram_world
           (fun pos buf' w0 => ram_reader_reads_file pos buf' w0) H1 H2 H3 H4 H5).
Defined.

Lemma Clone_keeps_window_witness :
  Clone (ram_slice 10) ram_world =
    (Return (ram_slice 10),
     {| stdlog := ["DEGBU before clone: SlicedIndexInput(slice in _0.cfs)";
                   "DEBUG after clone: SlicedIndexInput(slice in _0.cfs)"];
        ext := 0 |}).
Proof.
  exact (proj1 (Clone_keeps_window (ram_slice 10) ram_world) tt _ eq_refl).
Defined.

End MoreDirectoryExamples.
